(** * Search-terms analyser: the streaming decode loop, the context
      resolver and the CSV export of [src/index.tsx]

    The development embeds the TypeScript functions of [src/index.tsx]
    that carry behaviour ([tryParseAndDisplay], [addResultToTable],
    [getBusinessContext], [handleAnalyzeClick] with the callbacks of its
    file reader, [handleCopyCsvClick]) together with the pieces of the
    ECMAScript runtime they call ([String.prototype.trim], [indexOf],
    [substring], [startsWith], [endsWith], [replace], [JSON.parse],
    property access and truthiness).  The text of the two prompts and the
    generative API itself stay outside: the API is a parameter that gives
    the outcome of each request. *)

From Stdlib Require Import String Ascii NArith ZArith Lia Bool List.
From Equations Require Import Equations.
Import ListNotations.

Set Implicit Arguments.
Set Warnings "-register-all".  (* no nested induction schemes are needed *)

(** ** ECMAScript strings

    A JavaScript string is a finite sequence of UTF-16 code units.  A code
    unit is a number below 65536; nothing below depends on that bound, so
    it is not carried around. *)

Module JsString.

Definition code_unit := N.
Definition jsstring := list code_unit.

(** Literals: the code units of an ASCII text. *)
Definition js (s : string) : jsstring :=
  map N_of_ascii (list_ascii_of_string s).

(** The same, with every apostrophe standing for a double quote (code
    unit 34), so that JSON texts can be written as literals. *)
Definition jsq (s : string) : jsstring :=
  map (fun c => if N.eqb c 39 then 34%N else c) (js s).

Definition LF : code_unit := 10%N.
Definition newline : jsstring := [LF].

(** [WhiteSpace] and [LineTerminator] of ECMA-262 (sections 12.2 and
    12.3): what [String.prototype.trim] strips. *)
Definition isWhiteSpace (c : code_unit) : bool :=
  (N.eqb c 9 || N.eqb c 11 || N.eqb c 12 || N.eqb c 32 || N.eqb c 160
   || N.eqb c 5760 || (N.leb 8192 c && N.leb c 8202)
   || N.eqb c 8239 || N.eqb c 8287 || N.eqb c 12288 || N.eqb c 65279)%bool.

Definition isLineTerminator (c : code_unit) : bool :=
  (N.eqb c 10 || N.eqb c 13 || N.eqb c 8232 || N.eqb c 8233)%bool.

Definition isTrimmed (c : code_unit) : bool :=
  (isWhiteSpace c || isLineTerminator c)%bool.

Fixpoint dropWhile (p : code_unit -> bool) (s : jsstring) : jsstring :=
  match s with
  | [] => []
  | c :: r => if p c then dropWhile p r else s
  end.

Definition trimStart (s : jsstring) : jsstring := dropWhile isTrimmed s.
Definition trimEnd (s : jsstring) : jsstring :=
  rev (dropWhile isTrimmed (rev s)).

(** [s.trim()] *)
Definition trim (s : jsstring) : jsstring := trimEnd (trimStart s).

(** Truthiness of a string: [if (s)] holds when [s] is not empty. *)
Definition truthy_string (s : jsstring) : bool :=
  match s with [] => false | _ :: _ => true end.

Fixpoint isPrefix (pat s : jsstring) : bool :=
  match pat, s with
  | [], _ => true
  | _ :: _, [] => false
  | p :: pat', c :: s' => (N.eqb p c && isPrefix pat' s')%bool
  end.

(** [s.startsWith(pat)] and [s.endsWith(pat)] *)
Definition startsWith (s pat : jsstring) : bool := isPrefix pat s.
Definition endsWith (s pat : jsstring) : bool := isPrefix (rev pat) (rev s).

(** Position of the first occurrence of [pat] in [s], if any. *)
Fixpoint find (pat s : jsstring) : option nat :=
  if isPrefix pat s then Some O
  else match s with
       | [] => None
       | _ :: s' => option_map S (find pat s')
       end.

(** [s.indexOf(pat)]: the first position, or [-1]. *)
Definition indexOf (s pat : jsstring) : Z :=
  match find pat s with
  | Some i => Z.of_nat i
  | None => (-1)%Z
  end.

(** [s.substring(start, end)]: both positions are clamped to
    [0 .. s.length] and swapped when out of order; a missing [end] is
    [s.length]. *)
Definition clamp (len i : Z) : Z := Z.min (Z.max i 0) len.

Definition substring (s : jsstring) (start : Z) (end_ : option Z) : jsstring :=
  let len := Z.of_nat (length s) in
  let intStart := clamp len start in
  let intEnd := match end_ with Some e => clamp len e | None => len end in
  let from := Z.min intStart intEnd in
  let to := Z.max intStart intEnd in
  firstn (Z.to_nat (to - from)) (skipn (Z.to_nat from) s).

(** [s.replace(pat, '')] for a string pattern, and for a regular
    expression without the [g] flag that matches exactly the text [pat]:
    the first occurrence is removed. *)
Definition removeFirst (s pat : jsstring) : jsstring :=
  match find pat s with
  | Some i => firstn i s ++ skipn (i + length pat) s
  | None => s
  end.

(** [s.replace(re, by_)] for a regular expression [re] with the [g] flag
    that matches exactly the one code unit [c]: every occurrence of [c] is
    replaced by [by_]. *)
Definition replaceAll (s : jsstring) (c : code_unit) (by_ : jsstring) : jsstring :=
  flat_map (fun x => if N.eqb x c then by_ else [x]) s.

(** [parts.join(sep)] for an array of strings. *)
Fixpoint join (sep : jsstring) (parts : list jsstring) : jsstring :=
  match parts with
  | [] => []
  | [p] => p
  | p :: rest => p ++ sep ++ join sep rest
  end.

End JsString.
Import JsString.

(** ** ECMAScript values and [JSON.parse]

    The values [JSON.parse] can return, and [undefined], which a property
    read yields for an absent key. *)

Module Json.

(** A JSON number literal keeps its exact decimal value
    [(-1)^neg * mantissa * 10^exp10].  The Number it denotes is that value
    rounded to the nearest IEEE 754 double, ties to even. *)
Record JsonNumber := mkNumber {
  num_neg : bool;
  num_mantissa : N;
  num_exp10 : Z
}.

Inductive JsValue :=
| JUndefined
| JNull
| JBool (b : bool)
| JNumber (n : JsonNumber)
| JString (s : jsstring)
| JArray (elements : list JsValue)
| JObject (props : list (jsstring * JsValue)).

(** The literal rounds to [+0] or [-0] exactly when its magnitude is at
    most [2^-1075], half of the least positive double [2^-1074].  (An
    engine may round a literal of more than twenty significant digits
    from its first twenty; engines in use round exactly.) *)
Definition number_is_zero (n : JsonNumber) : bool :=
  (N.eqb (num_mantissa n) 0
   || (Z.ltb (num_exp10 n) 0
       && Z.leb (Z.of_N (num_mantissa n) * 2 ^ 1075) (10 ^ (- num_exp10 n))))%bool.

(** [ToBoolean] of ECMA-262 (section 7.1.2). *)
Definition ToBoolean (v : JsValue) : bool :=
  match v with
  | JUndefined => false
  | JNull => false
  | JBool b => b
  | JNumber n => negb (number_is_zero n)
  | JString s => truthy_string s
  | JArray _ => true
  | JObject _ => true
  end.

Fixpoint jsstring_eqb (a b : jsstring) : bool :=
  match a, b with
  | [], [] => true
  | x :: a', y :: b' => (N.eqb x y && jsstring_eqb a' b')%bool
  | _, _ => false
  end.

(** Own data properties of an object, keys pairwise distinct. *)
Fixpoint lookup (k : jsstring) (props : list (jsstring * JsValue)) : option JsValue :=
  match props with
  | [] => None
  | (k', v) :: rest => if jsstring_eqb k k' then Some v else lookup k rest
  end.

(** Whether [ToString] of ECMA-262 (section 7.1.17) completes on a value
    that [JSON.parse] returned, or on [undefined].  A primitive always
    has a text.  An object is converted by [OrdinaryToPrimitive] with hint
    string, which calls its [toString] and then its [valueOf]: an own
    [toString] property of a parsed object holds a JSON value, which is
    not callable, and [valueOf], own or inherited, gives no primitive, so
    the conversion throws a [TypeError]; an object without an own
    [toString] has the text that [Object.prototype.toString] returns.  An
    array is converted by [Array.prototype.join], which converts each
    element other than [null] and [undefined]. *)
Fixpoint ToString_completes (v : JsValue) : bool :=
  match v with
  | JObject props =>
      match lookup (js "toString") props with
      | Some _ => false
      | None => true
      end
  | JArray elements => forallb ToString_completes elements
  | _ => true
  end.

(** [CreateDataProperty]: a repeated key overwrites the earlier value. *)
Fixpoint set_prop (k : jsstring) (v : JsValue) (props : list (jsstring * JsValue))
  : list (jsstring * JsValue) :=
  match props with
  | [] => [(k, v)]
  | (k', v') :: rest =>
      if jsstring_eqb k k' then (k, v) :: rest else (k', v') :: set_prop k v rest
  end.

(** *** The JSON grammar (ECMA-404), as a recursive-descent parser *)

Definition isJsonWs (c : code_unit) : bool :=
  (N.eqb c 9 || N.eqb c 10 || N.eqb c 13 || N.eqb c 32)%bool.

Definition skip_ws (s : jsstring) : jsstring := dropWhile isJsonWs s.

Definition isDigit (c : code_unit) : bool := (N.leb 48 c && N.leb c 57)%bool.

Definition hexValue (c : code_unit) : option N :=
  if isDigit c then Some (c - 48)%N
  else if (N.leb 97 c && N.leb c 102)%bool then Some (c - 87)%N
  else if (N.leb 65 c && N.leb c 70)%bool then Some (c - 55)%N
  else None.

(** The escape after a backslash, other than [u]. *)
Definition simpleEscape (c : code_unit) : option code_unit :=
  if N.eqb c 34 then Some 34%N          (* quotation mark *)
  else if N.eqb c 92 then Some 92%N     (* reverse solidus *)
  else if N.eqb c 47 then Some 47%N     (* solidus *)
  else if N.eqb c 98 then Some 8%N      (* b *)
  else if N.eqb c 102 then Some 12%N    (* f *)
  else if N.eqb c 110 then Some 10%N    (* n *)
  else if N.eqb c 114 then Some 13%N    (* r *)
  else if N.eqb c 116 then Some 9%N     (* t *)
  else None.

(** The characters of a string after its opening quotation mark, up to
    and including the closing one. *)
Fixpoint parse_string_body (s : jsstring) : option (jsstring * jsstring) :=
  match s with
  | [] => None
  | c :: r =>
      if N.eqb c 34 then Some ([], r)
      else if N.eqb c 92 then
        match r with
        | [] => None
        | e :: r1 =>
            if N.eqb e 117 then
              match r1 with
              | h1 :: h2 :: h3 :: h4 :: r2 =>
                  match hexValue h1, hexValue h2, hexValue h3, hexValue h4 with
                  | Some a, Some b, Some c', Some d =>
                      match parse_string_body r2 with
                      | Some (str, rest) =>
                          Some ((((a * 16 + b) * 16 + c') * 16 + d)%N :: str, rest)
                      | None => None
                      end
                  | _, _, _, _ => None
                  end
              | _ => None
              end
            else
              match simpleEscape e with
              | Some x =>
                  match parse_string_body r1 with
                  | Some (str, rest) => Some (x :: str, rest)
                  | None => None
                  end
              | None => None
              end
        end
      else if N.ltb c 32 then None
      else
        match parse_string_body r with
        | Some (str, rest) => Some (c :: str, rest)
        | None => None
        end
  end.

Fixpoint span_digits (s : jsstring) : list N * jsstring :=
  match s with
  | [] => ([], [])
  | c :: r =>
      if isDigit c then
        let (ds, rest) := span_digits r in ((c - 48)%N :: ds, rest)
      else ([], s)
  end.

Definition digits_value (ds : list N) : N :=
  fold_left (fun acc d => (acc * 10 + d)%N) ds 0%N.

(** [int]: a single zero, or a non-zero digit followed by digits. *)
Definition parse_int (s : jsstring) : option (list N * jsstring) :=
  match s with
  | [] => None
  | c :: r =>
      if N.eqb c 48 then Some ([0%N], r)
      else if isDigit c then Some (span_digits s)
      else None
  end.

(** [frac]: nothing, or a point followed by at least one digit. *)
Definition parse_frac (s : jsstring) : option (list N * jsstring) :=
  match s with
  | c :: r =>
      if N.eqb c 46 then
        match span_digits r with
        | ([], _) => None
        | (ds, rest) => Some (ds, rest)
        end
      else Some ([], s)
  | [] => Some ([], s)
  end.

(** [exp]: nothing, or [e]/[E], an optional sign and at least one digit. *)
Definition parse_exp (s : jsstring) : option (Z * jsstring) :=
  match s with
  | c :: r =>
      if (N.eqb c 101 || N.eqb c 69)%bool then
        let (negative, r1) :=
          match r with
          | sg :: r' =>
              if N.eqb sg 45 then (true, r')
              else if N.eqb sg 43 then (false, r')
              else (false, r)
          | [] => (false, r)
          end in
        match span_digits r1 with
        | ([], _) => None
        | (ds, rest) =>
            let e := Z.of_N (digits_value ds) in
            Some (if negative then (- e)%Z else e, rest)
        end
      else Some (0%Z, s)
  | [] => Some (0%Z, s)
  end.

Definition parse_number (s : jsstring) : option (JsonNumber * jsstring) :=
  let (neg, s1) :=
    match s with
    | c :: r => if N.eqb c 45 then (true, r) else (false, s)
    | [] => (false, s)
    end in
  match parse_int s1 with
  | None => None
  | Some (ints, s2) =>
      match parse_frac s2 with
      | None => None
      | Some (fracs, s3) =>
          match parse_exp s3 with
          | None => None
          | Some (e, s4) =>
              Some (mkNumber neg (digits_value (ints ++ fracs))
                             (e - Z.of_nat (length fracs)), s4)
          end
      end
  end.

Inductive ParseResult (A : Type) :=
| POk (a : A)
| PSyntaxError
| POutOfFuel.
Arguments PSyntaxError {A}.
Arguments POutOfFuel {A}.

(** [parse_value] reads one value after optional white space;
    [parse_elements] the elements of an array after its first bracket;
    [parse_members] the members of an object, from the quotation mark of a
    key on.  Each call spends one unit of [fuel]; of two nested calls at
    least one reads a code unit before it calls another. *)
Fixpoint parse_value (fuel : nat) (s : jsstring) : ParseResult (JsValue * jsstring) :=
  match fuel with
  | O => POutOfFuel
  | S fuel' =>
      match skip_ws s with
      | [] => PSyntaxError
      | c :: r =>
          if N.eqb c 123 then
            match skip_ws r with
            | [] => PSyntaxError
            | c1 :: r1 =>
                if N.eqb c1 125 then POk (JObject [], r1)
                else
                  match parse_members fuel' (c1 :: r1) [] with
                  | POk (props, rest) => POk (JObject props, rest)
                  | PSyntaxError => PSyntaxError
                  | POutOfFuel => POutOfFuel
                  end
            end
          else if N.eqb c 91 then
            match skip_ws r with
            | [] => PSyntaxError
            | c1 :: r1 =>
                if N.eqb c1 93 then POk (JArray [], r1)
                else
                  match parse_elements fuel' (c1 :: r1) with
                  | POk (elements, rest) => POk (JArray elements, rest)
                  | PSyntaxError => PSyntaxError
                  | POutOfFuel => POutOfFuel
                  end
            end
          else if N.eqb c 34 then
            match parse_string_body r with
            | Some (str, rest) => POk (JString str, rest)
            | None => PSyntaxError
            end
          else if (N.eqb c 45 || isDigit c)%bool then
            match parse_number (c :: r) with
            | Some (n, rest) => POk (JNumber n, rest)
            | None => PSyntaxError
            end
          else if isPrefix (js "true") (c :: r) then POk (JBool true, skipn 4 (c :: r))
          else if isPrefix (js "false") (c :: r) then POk (JBool false, skipn 5 (c :: r))
          else if isPrefix (js "null") (c :: r) then POk (JNull, skipn 4 (c :: r))
          else PSyntaxError
      end
  end

with parse_elements (fuel : nat) (s : jsstring) : ParseResult (list JsValue * jsstring) :=
  match fuel with
  | O => POutOfFuel
  | S fuel' =>
      match parse_value fuel' s with
      | POk (v, r) =>
          match skip_ws r with
          | [] => PSyntaxError
          | c :: r1 =>
              if N.eqb c 93 then POk ([v], r1)
              else if N.eqb c 44 then
                match parse_elements fuel' r1 with
                | POk (vs, rest) => POk (v :: vs, rest)
                | PSyntaxError => PSyntaxError
                | POutOfFuel => POutOfFuel
                end
              else PSyntaxError
          end
      | PSyntaxError => PSyntaxError
      | POutOfFuel => POutOfFuel
      end
  end

with parse_members (fuel : nat) (s : jsstring) (acc : list (jsstring * JsValue))
  : ParseResult (list (jsstring * JsValue) * jsstring) :=
  match fuel with
  | O => POutOfFuel
  | S fuel' =>
      match s with
      | [] => PSyntaxError
      | q :: r =>
          if N.eqb q 34 then
            match parse_string_body r with
            | None => PSyntaxError
            | Some (key, r1) =>
                match skip_ws r1 with
                | [] => PSyntaxError
                | colon :: r2 =>
                    if N.eqb colon 58 then
                      match parse_value fuel' r2 with
                      | POk (v, r3) =>
                          match skip_ws r3 with
                          | [] => PSyntaxError
                          | c :: r4 =>
                              if N.eqb c 125 then POk (set_prop key v acc, r4)
                              else if N.eqb c 44 then
                                parse_members fuel' (skip_ws r4) (set_prop key v acc)
                              else PSyntaxError
                          end
                      | PSyntaxError => PSyntaxError
                      | POutOfFuel => POutOfFuel
                      end
                    else PSyntaxError
                end
            end
          else PSyntaxError
      end
  end.

(** Errors a program of this repository can see thrown. *)
Inductive Exn :=
| SyntaxError                    (* thrown by [JSON.parse] *)
| TypeError                      (* property read on [null] or [undefined],
                                    or a value without string conversion *)
| ApiError (message : jsstring)  (* thrown by the generative API client *)
| NotAnError (v : JsValue).      (* a thrown value that is no [Error] *)

Inductive Completion (A : Type) :=
| Normal (a : A)
| Throw (e : Exn).
Arguments Throw {A}.

(** [JSON.parse(text)]: one value with optional white space around it;
    anything else throws a [SyntaxError].  The fuel, more than twice the
    length of the text, is always enough ([JsonFacts.JSON_parse_fuel]). *)
Definition JSON_parse (text : jsstring) : Completion JsValue :=
  match parse_value (S (2 * length text)) text with
  | POk (v, rest) =>
      match skip_ws rest with
      | [] => Normal v
      | _ :: _ => Throw SyntaxError
      end
  | PSyntaxError => Throw SyntaxError
  | POutOfFuel => Throw SyntaxError
  end.

(** [v.key] for a key that no built-in prototype defines (all keys read
    by this program: [term], [category], [adGroup], ..., [location],
    [competitors], [services]): the own property of an object,
    [undefined] on any other value, and a [TypeError] on [null] and
    [undefined]. *)
Definition Get (v : JsValue) (key : jsstring) : Completion JsValue :=
  match v with
  | JUndefined | JNull => Throw TypeError
  | JObject props =>
      match lookup key props with
      | Some x => Normal x
      | None => Normal JUndefined
      end
  | _ => Normal JUndefined
  end.

End Json.
Import Json.

(** ** The page: what the handlers read and write *)

Module Page.

(** Texts shown by [displayError]. *)
Inductive UserMessage :=
| SelectFileFirst        (* Please select a CSV file first. *)
| ProvideUrlOrLocation   (* Please provide a Website URL or a manual Targeting Location. *)
| NoLocation             (* Could not determine a location. Please enter one manually. *)
| AnalysisFailed (e : Exn) (* Analysis failed: followed by the message of [e] *)
| FileReadFailed.        (* Failed to read the selected file. *)

Inductive ConsoleEntry :=
| ConsoleWarn (line : jsstring) (e : Exn)  (* Could not parse streaming JSON line: *)
| ConsoleError (e : Exn).

(** A row of the results table: the value assigned to the [textContent]
    of each cell, in column order, and the animation delay in
    milliseconds once it has been set. *)
Record Row := mkRow {
  cells : list JsValue;
  animationDelay : option N
}.

(** [resultsTbody] is [None] when the document has no element with id
    [results-tbody]; [errorContainer] holds the displayed message, [None]
    while the container is hidden. *)
Record World := mkWorld {
  resultsTbody : option (list Row);
  resultsShown : bool;
  console : list ConsoleEntry;
  errorContainer : option UserMessage;
  loading : bool
}.

Definition set_tbody (w : World) (rows : list Row) : World :=
  mkWorld (Some rows) (resultsShown w) (console w) (errorContainer w) (loading w).

Definition log (w : World) (entry : ConsoleEntry) : World :=
  mkWorld (resultsTbody w) (resultsShown w) (console w ++ [entry])
          (errorContainer w) (loading w).

(** Computations that read and write the page and may throw. *)
Definition M (A : Type) : Type := World -> World * Completion A.

Definition ret {A} (a : A) : M A := fun w => (w, Normal a).

Definition bind {A B} (m : M A) (k : A -> M B) : M B :=
  fun w =>
    match m w with
    | (w', Normal a) => k a w'
    | (w', Throw e) => (w', Throw e)
    end.

Definition lift {A} (c : Completion A) : M A := fun w => (w, c).

(** [try { body } catch (e) { handler e }] *)
Definition try_catch {A} (body : M A) (handler : Exn -> M A) : M A :=
  fun w =>
    match body w with
    | (w', Normal a) => (w', Normal a)
    | (w', Throw e) => handler e w'
    end.

(** [try { body } finally { final }] *)
Definition try_finally {A} (body : M A) (final : M unit) : M A :=
  fun w =>
    match body w with
    | (w', c) =>
        match final w' with
        | (w'', Normal _) => (w'', c)
        | (w'', Throw e) => (w'', Throw e)
        end
    end.

Declare Scope page_scope.
Delimit Scope page_scope with page.
Notation "x <- m ;; k" := (bind m (fun x => k))
  (at level 61, m at next level, right associativity) : page_scope.
Notation "m ;;; k" := (bind m (fun _ => k))
  (at level 61, right associativity) : page_scope.

End Page.
Import Page.
Open Scope page_scope.

(** ** The program *)

Module Analyser.

(** *** UI helpers (lines 263-302) *)

Definition setLoadingState (isLoading : bool) : M unit := fun w =>
  (mkWorld (resultsTbody w) (resultsShown w) (console w) (errorContainer w) isLoading,
   Normal tt).

Definition clearResultsAndErrors : M unit := fun w =>
  (mkWorld (option_map (fun _ => []) (resultsTbody w)) false (console w) None (loading w),
   Normal tt).

Definition displayError (message : UserMessage) : M unit := fun w =>
  (mkWorld (resultsTbody w) (resultsShown w) (console w) (Some message) (loading w),
   Normal tt).

Definition initializeResultDisplay : M unit := fun w =>
  (mkWorld (option_map (fun _ => []) (resultsTbody w)) true (console w)
           (errorContainer w) (loading w),
   Normal tt).

Definition console_warn (line : jsstring) (e : Exn) : M unit := fun w =>
  (log w (ConsoleWarn line e), Normal tt).

Definition console_error (e : Exn) : M unit := fun w =>
  (log w (ConsoleError e), Normal tt).

(** *** [addResultToTable] (lines 308-323) *)

(** The seven columns, in the order the cells are inserted. *)
Definition columns : list jsstring :=
  [js "term"; js "category"; js "adGroup"; js "positivePhrase";
   js "negativePhrase"; js "competitorBrand"; js "locationExclusion"].

(** [row.insertCell().textContent = item.key], for each key in turn: the
    cell is created, with empty text, before [item.key] is read; the
    setter of [textContent] takes [null] and [undefined] as the empty
    text and applies [ToString] to any other value, so the assignment
    throws, and the cell keeps its empty text, when the value has no
    string conversion. *)
Fixpoint insertCells (item : JsValue) (keys : list jsstring)
  : list JsValue * Completion unit :=
  match keys with
  | [] => ([], Normal tt)
  | key :: rest =>
      match Get item key with
      | Throw e => ([JString []], Throw e)
      | Normal v =>
          if ToString_completes v then
            let (cs, c) := insertCells item rest in (v :: cs, c)
          else ([JString []], Throw TypeError)
      end
  end.

Definition addResultToTable (item : JsValue) : M unit := fun w =>
  match resultsTbody w with
  | None => (w, Normal tt)
  | Some rows =>
      match insertCells item columns with
      | (cs, Throw e) => (set_tbody w (rows ++ [mkRow cs None]), Throw e)
      | (cs, Normal _) =>
          let rowCount := N.of_nat (length rows + 1) in
          (set_tbody w (rows ++ [mkRow cs (Some ((rowCount mod 50) * 20)%N)]),
           Normal tt)
      end
  end.

(** *** [tryParseAndDisplay] (lines 197-210) *)

Definition tryParseAndDisplay (line : jsstring) : M unit :=
  try_catch
    (let sanitizedLine :=
       if (startsWith line (js "{") && endsWith line (js "}"))%bool
       then line else [] in
     if negb (truthy_string sanitizedLine) then ret tt
     else
       item <- lift (JSON_parse sanitizedLine) ;;
       term <- lift (Get item (js "term")) ;;
       (* item.term && item.category *)
       both <- (if ToBoolean term then lift (Get item (js "category"))
                else ret term) ;;
       if ToBoolean both then addResultToTable item else ret tt)
    (fun e => console_warn line e).

(** *** The streaming loop of [handleAnalyzeClick] (lines 155-169) *)

(** What the generative API streams: the [text] of each chunk, which the
    client library leaves [undefined] for a chunk without text parts, and
    the error that ends the stream early, if any. *)
Record Stream := mkStream {
  chunks : list (option jsstring);
  failure : option Exn
}.

(** [buffer += chunk.text]: string concatenation turns [undefined] into
    the nine code units of its name. *)
Definition append_text (buffer : jsstring) (text : option jsstring) : jsstring :=
  buffer ++ match text with Some t => t | None => js "undefined" end.

(** The inner [while] loop (lines 158-165); it returns the buffer left
    when no newline remains. *)
Equations? drain (buffer : jsstring) (w : World) : World * Completion jsstring
  by wf (length buffer) lt :=
drain buffer w with Z.eq_dec (indexOf buffer newline) (-1) := {
  | left _ => (w, Normal buffer)
  | right found =>
      let newlineIndex := indexOf buffer newline in
      let line := trim (substring buffer 0 (Some newlineIndex)) in
      match (if truthy_string line then tryParseAndDisplay line else ret tt) w with
      | (w', Normal _) => drain (substring buffer (newlineIndex + 1) None) w'
      | (w', Throw e) => (w', Throw e)
      end }.
Proof.
  (* each extraction strictly shortens the buffer *)
  subst newlineIndex. clear - found.
  assert (Hrange : (0 <= indexOf buffer newline < Z.of_nat (length buffer))%Z).
  { unfold indexOf in *.
    destruct (find newline buffer) as [i|] eqn:Hfind; [|contradiction].
    clear found. enough (i < length buffer) by lia.
    revert i Hfind.
    induction buffer as [|c0 s IH]; intros i Hfind.
    - discriminate.
    - change (find newline (c0 :: s))
        with (if (N.eqb LF c0 && true)%bool then Some 0
              else option_map S (find newline s)) in Hfind.
      destruct (N.eqb LF c0 && true)%bool.
      + inversion Hfind. simpl. lia.
      + destruct (find newline s) as [j|]; simpl in Hfind; [|discriminate].
        inversion Hfind. specialize (IH j eq_refl). simpl. lia. }
  unfold substring, clamp.
  rewrite length_firstn, length_skipn. lia.
Qed.

(** The [for await] loop (lines 156-166). *)
Fixpoint for_await (chunks : list (option jsstring)) (failure : option Exn)
    (buffer : jsstring) : M jsstring :=
  match chunks with
  | [] =>
      match failure with
      | None => ret buffer
      | Some e => lift (Throw e)
      end
  | text :: rest =>
      buffer' <- drain (append_text buffer text) ;;
      for_await rest failure buffer'
  end.

(** Lines 155-169: the loop, then the flush of what is left. *)
Definition decode_stream (stream : Stream) : M unit :=
  buffer <- for_await (chunks stream) (failure stream) [] ;;
  if truthy_string (trim buffer) then tryParseAndDisplay (trim buffer)
  else ret tt.

(** The body of [reader.onload] (lines 146-176).  [opened] is the outcome
    of lines 147-153: building the prompt and opening the stream, which
    may throw. *)
Definition reader_onload (opened : Completion Stream) : M unit :=
  try_finally
    (try_catch (stream <- lift opened ;; decode_stream stream)
               (fun error => console_error error ;;; displayError (AnalysisFailed error)))
    (setLoadingState false).

(** [reader.onerror] (lines 179-182) *)
Definition reader_onerror : M unit :=
  displayError FileReadFailed ;;; setLoadingState false.

(** *** [getBusinessContext] (lines 72-101) *)

(** Outcome of [ai.models.generateContent]: it throws, or it returns a
    response whose [text] is [undefined] when the response has no text
    part. *)
Inductive ApiResponse :=
| ApiThrows (e : Exn)
| ApiReturns (text : option jsstring).

(** At run time the fields hold whatever the parsed JSON held; the
    interface [BusinessContext] is not checked. *)
Record BusinessContext := mkContext {
  location : JsValue;
  competitors : JsValue;
  services : JsValue
}.

Definition fence : jsstring := js "```".
Definition fence_json : jsstring := js "```json".

(** [text.replace(re, '')] where [re] matches the opening fence followed
    by the word json and, when there is one, the newline after it: the
    leftmost match is removed. *)
Definition remove_fence_json (text : jsstring) : jsstring :=
  match find fence_json text with
  | Some i =>
      firstn i text ++
      match skipn (i + length fence_json) text with
      | c :: r => if N.eqb c LF then r else c :: r
      | [] => []
      end
  | None => text
  end.

(** [v || d] *)
Definition or_else (v d : JsValue) : JsValue := if ToBoolean v then v else d.

(** [ai websiteUrl] is the outcome of the request whose prompt is built
    from [websiteUrl]. *)
Definition getBusinessContext (ai : jsstring -> ApiResponse) (websiteUrl : jsstring)
  : Completion BusinessContext :=
  match ai websiteUrl with
  | ApiThrows e => Throw e
  | ApiReturns None => Throw TypeError
  | ApiReturns (Some text) =>
      let cleanJsonText := trim (removeFirst (remove_fence_json text) fence) in
      match JSON_parse cleanJsonText with
      | Throw e => Throw e
      | Normal parsed =>
          match Get parsed (js "location") with
          | Throw e => Throw e
          | Normal loc =>
              match Get parsed (js "competitors") with
              | Throw e => Throw e
              | Normal comp =>
                  match Get parsed (js "services") with
                  | Throw e => Throw e
                  | Normal serv =>
                      Normal (mkContext (or_else loc (JString []))
                                        (or_else comp (JArray []))
                                        (or_else serv (JArray [])))
                  end
              end
          end
      end
  end.

(** *** The context step of [handleAnalyzeClick] (lines 125-134) *)

Definition set_location (context : BusinessContext) (l : JsValue) : BusinessContext :=
  mkContext l (competitors context) (services context).

Definition analysis_context (ai : jsstring -> ApiResponse)
    (websiteUrl manualLocation : jsstring) : Completion BusinessContext :=
  let context := mkContext (JString []) (JArray []) (JArray []) in
  match (if truthy_string websiteUrl then getBusinessContext ai websiteUrl
         else Normal context) with
  | Throw e => Throw e
  | Normal context =>
      Normal (if truthy_string manualLocation
              then set_location context (JString manualLocation)
              else context)
  end.

(** *** [handleAnalyzeClick] as a whole (lines 107-191) *)

(** Reading the selected file as text fails or yields its content. *)
Inductive FileRead :=
| ReadFails
| ReadGives (csvContent : jsstring).

(** What the handler finds around it: the selected file, the values of
    the two input fields, and the generative API.  [generateContentStream
    csv context] is the outcome of building the analysis prompt from the
    file content and the context and of opening the stream with it. *)
Record Surroundings := mkSurroundings {
  selectedFile : option FileRead;
  urlInput : jsstring;
  manualLocationInput : jsstring;
  generateContent : jsstring -> ApiResponse;
  generateContentStream : jsstring -> BusinessContext -> Completion Stream
}.

(** The handler, followed by the callback of the file reader that it has
    armed. *)
Definition handleAnalyzeClick (env : Surroundings) : M unit :=
  match selectedFile env with
  | None => displayError SelectFileFirst
  | Some file =>
      let websiteUrl := trim (urlInput env) in
      let manualLocation := trim (manualLocationInput env) in
      if (negb (truthy_string websiteUrl) && negb (truthy_string manualLocation))%bool
      then displayError ProvideUrlOrLocation
      else
        setLoadingState true ;;;
        clearResultsAndErrors ;;;
        initializeResultDisplay ;;;
        armed <-
          try_catch
            (context <- lift (analysis_context (generateContent env)
                                               websiteUrl manualLocation) ;;
             if negb (ToBoolean (location context))
             then displayError NoLocation ;;; setLoadingState false ;;; ret None
             else ret (Some context))
            (fun error =>
               console_error error ;;;
               displayError (AnalysisFailed error) ;;;
               setLoadingState false ;;;
               ret None) ;;
        match armed with
        | None => ret tt
        | Some context =>
            match file with
            | ReadFails => reader_onerror
            | ReadGives csvContent =>
                reader_onload (generateContentStream env csvContent context)
            end
        end
  end.

(** *** [handleCopyCsvClick] (lines 328-338) *)

(** The element with class [results-table] as the handler reads it: the
    [textContent] of each header cell and of each cell of each body row. *)
Record ResultsTable := mkTable {
  thead : list jsstring;
  tbody : list (list jsstring)
}.

Definition quote : jsstring := [34%N].
Definition comma : jsstring := [44%N].

Definition header_cell (th : jsstring) : jsstring := quote ++ th ++ quote.

Definition data_cell (td : jsstring) : jsstring :=
  quote ++ replaceAll td 34%N (quote ++ quote) ++ quote.

(** The text handed to [navigator.clipboard.writeText], or [None] when the
    handler returns before writing. *)
Definition handleCopyCsvClick (table : option ResultsTable) : option jsstring :=
  match table with
  | None => None
  | Some t =>
      let headers := join comma (map header_cell (thead t)) in
      let rows := map (fun row => join comma (map data_cell row)) (tbody t) in
      let csvContent := join newline (headers :: rows) in
      if truthy_string csvContent then Some csvContent else None
  end.

(** The text a cell shows for the value assigned to its [textContent]:
    [undefined] and [null] give the empty text, a string itself.  The
    texts of numbers, booleans, arrays and objects are not modelled. *)
Definition cell_text (v : JsValue) : option jsstring :=
  match v with
  | JUndefined | JNull => Some []
  | JString s => Some s
  | _ => None
  end.

End Analyser.
Import Analyser.

(** ** Notions used to state the properties *)

Module Spec.

(** The first line of a text: what precedes its first newline, and what
    follows it; [None] when the text has no newline. *)
Fixpoint cut (s : jsstring) : option (jsstring * jsstring) :=
  match s with
  | [] => None
  | c :: r =>
      if N.eqb c LF then Some ([], r)
      else match cut r with
           | Some (l, rest) => Some (c :: l, rest)
           | None => None
           end
  end.

(** One pass of the loop body on the extracted text [raw] (lines
    160-164). *)
Definition handle_line (raw : jsstring) : M unit :=
  let line := trim raw in
  if truthy_string line then tryParseAndDisplay line else ret tt.

(** Lines 167-169: the flush of the buffer the loop has left. *)
Definition flush (buffer : jsstring) : M unit :=
  if truthy_string (trim buffer) then tryParseAndDisplay (trim buffer) else ret tt.

(** The line passes the brace filter of [tryParseAndDisplay]. *)
Definition brace_delimited (line : jsstring) : bool :=
  (startsWith line (js "{") && endsWith line (js "}"))%bool.

(** The empty values: a field holding one of them is an empty field. *)
Definition empty_value (v : JsValue) : bool :=
  match v with
  | JUndefined | JNull => true
  | JBool b => negb b
  | JNumber n => number_is_zero n
  | JString [] => true
  | JString (_ :: _) => false
  | JArray _ | JObject _ => false
  end.

(** The field [key] is present and not empty. *)
Definition nonempty_field (props : list (jsstring * JsValue)) (key : jsstring) : bool :=
  match lookup key props with
  | Some v => negb (empty_value v)
  | None => false
  end.

(** The record a line decodes to: the line is the text of a JSON object
    whose [term] and [category] fields are not empty. *)
Definition decoded (line : jsstring) : option (list (jsstring * JsValue)) :=
  match JSON_parse line with
  | Normal (JObject props) =>
      if (nonempty_field props (js "term") && nonempty_field props (js "category"))%bool
      then Some props else None
  | _ => None
  end.

(** The record the decode step accepts from a line, if any: the line
    passes the brace filter and decodes to a record. *)
Definition accepted (line : jsstring) : option (list (jsstring * JsValue)) :=
  if brace_delimited line then decoded line else None.

Definition field (props : list (jsstring * JsValue)) (key : jsstring) : JsValue :=
  match lookup key props with
  | Some v => v
  | None => JUndefined
  end.

(** The table row of a record, added after [rows]. *)
Definition record_row (props : list (jsstring * JsValue)) (rows : list Row) : Row :=
  mkRow (map (field props) columns)
        (Some ((N.of_nat (length rows + 1) mod 50) * 20)%N).

(** Each of the seven fields of the record has a text. *)
Definition has_text (props : list (jsstring * JsValue)) : bool :=
  forallb (fun key => ToString_completes (field props key)) columns.

(** The fields that precede the first one without a text. *)
Fixpoint fields_before_failure (props : list (jsstring * JsValue))
    (keys : list jsstring) : list JsValue :=
  match keys with
  | [] => []
  | key :: rest =>
      if ToString_completes (field props key)
      then field props key :: fields_before_failure props rest
      else []
  end.

(** The row that a record leaves in the table, after [rows]: its
    complete row when each field has a text; otherwise the cells filled
    before the first field without a text, one empty cell, and no
    animation delay. *)
Definition surfaced_row (props : list (jsstring * JsValue)) (rows : list Row) : Row :=
  if has_text props then record_row props rows
  else mkRow (fields_before_failure props columns ++ [JString []]) None.

(** The decode step as the specification words it: a line that fails to
    decode is discarded and logged. *)
Definition decode_failure_is_logged (line : jsstring) (w : World) : Prop :=
  forall e,
    JSON_parse line = Throw e ->
    resultsTbody (fst (tryParseAndDisplay line w)) = resultsTbody w /\
    exists entry, console (fst (tryParseAndDisplay line w)) = console w ++ [entry].

(** A stream that delivers the given texts and ends normally. *)
Definition text_stream (texts : list jsstring) : Stream :=
  mkStream (map Some texts) None.

(** Every chunk but the last ends with a newline: each split point falls
    immediately after a newline. *)
Fixpoint split_after_newlines (texts : list jsstring) : bool :=
  match texts with
  | [] => true
  | [_] => true
  | t :: rest => (endsWith t newline && split_after_newlines rest)%bool
  end.

(** The shape the context prompt asks for: an object whose [location],
    when present, is a string and whose [competitors] and [services],
    when present, are arrays of strings. *)
Definition is_string (v : JsValue) : bool :=
  match v with JString _ => true | _ => false end.

Definition is_string_array (v : JsValue) : bool :=
  match v with JArray l => forallb is_string l | _ => false end.

Definition optional (p : JsValue -> bool) (props : list (jsstring * JsValue))
    (key : jsstring) : bool :=
  match lookup key props with
  | Some v => p v
  | None => true
  end.

Definition expected_shape (v : JsValue) : bool :=
  match v with
  | JObject props =>
      (optional is_string props (js "location")
       && optional is_string_array props (js "competitors")
       && optional is_string_array props (js "services"))%bool
  | _ => false
  end.

(** The text [getBusinessContext] hands to [JSON.parse] (line 92). *)
Definition strip_fences (text : jsstring) : jsstring :=
  trim (removeFirst (remove_fence_json text) fence).

(** The response text, once the fences are stripped, parses to a value
    of the expected shape. *)
Definition parses_to_expected_shape (text : jsstring) : bool :=
  match JSON_parse (strip_fences text) with
  | Normal v => expected_shape v
  | Throw _ => false
  end.

(** The contract of the context resolver as the specification words it:
    the call fails exactly when the API call throws or the returned text
    is not parseable as the expected shape ... *)
Definition fails_exactly_on_unexpected_shape
    (ai : jsstring -> ApiResponse) (websiteUrl : jsstring) : Prop :=
  (exists e, getBusinessContext ai websiteUrl = Throw e) <->
  match ai websiteUrl with
  | ApiThrows _ => True
  | ApiReturns None => True
  | ApiReturns (Some text) => parses_to_expected_shape text = false
  end.

(** ... and whenever parsing succeeds the call returns a context rather
    than raising. *)
Definition returns_whenever_parsing_succeeds
    (ai : jsstring -> ApiResponse) (websiteUrl : jsstring) : Prop :=
  forall text parsed,
    ai websiteUrl = ApiReturns (Some text) ->
    JSON_parse (strip_fences text) = Normal parsed ->
    exists context, getBusinessContext ai websiteUrl = Normal context.

(** The value of [key] in [parsed] when it is present and not empty, the
    default [d] otherwise. *)
Definition defaulted (parsed : JsValue) (key : jsstring) (d : JsValue) : JsValue :=
  match parsed with
  | JObject props => if nonempty_field props key then field props key else d
  | _ => d
  end.

(** The export as the specification words it: every field, of the
    header row as of the body rows, is wrapped in double quotes with its
    inner double quotes doubled. *)
Definition quoted_field (text : jsstring) : jsstring :=
  quote ++ replaceAll text 34%N (quote ++ quote) ++ quote.

Definition every_field_is_quoted_and_doubled (t : ResultsTable) : Prop :=
  handleCopyCsvClick (Some t) =
  Some (join newline
          (map (fun row => join comma (map quoted_field row)) (thead t :: tbody t))).

(** Reading a CSV cell back: the text between the outer quotes, with each
    pair of quotes standing for one. *)
Fixpoint undouble (s : jsstring) : jsstring :=
  match s with
  | a :: ((b :: r) as t) =>
      if (N.eqb a 34 && N.eqb b 34)%bool then 34%N :: undouble r
      else a :: undouble t
  | _ => s
  end.

End Spec.
Import Spec.

(** ** Concrete pages and texts, used as instances below *)

Module Examples.

(** A page with an empty results table, during a run. *)
Definition page0 : World := mkWorld (Some []) true [] None true.

(** A line with a [term] but no [category]. *)
Definition line_without_category : jsstring := jsq "{'term':'x'}".

(** A complete record line with white space around it. *)
Definition padded_record_line : jsstring :=
  jsq "  {'term': 'plumber jobs', 'category': 'Negative'}  ".

(** A line cut before its closing brace, and a brace-delimited line that
    is no JSON. *)
Definition unclosed_line : jsstring := jsq "{'term': 'x'".
Definition malformed_line : jsstring := jsq "{'term': }".

(** Two record lines, the second without its final newline. *)
Definition record_x : jsstring := jsq "{'term':'x','category':'Negative'}".
Definition record_y : jsstring := jsq "{'term':'y','category':'Positive'}".
Definition two_lines : jsstring := record_x ++ newline ++ record_y ++ newline.

(** Two ways to deliver [two_lines ++ record_x], split after newlines. *)
Definition by_line : list jsstring :=
  [record_x ++ newline; record_y ++ newline; record_x].
Definition in_two : list jsstring := [two_lines; record_x].

(** A buffer that holds a newline. *)
Definition buffer_with_newline : jsstring := js "ab" ++ newline ++ js "cd".

(** A response of the context request wrapped in a code fence, one
    that is an empty array, and one that is [null]. *)
Definition fenced_response : jsstring :=
  js "```json" ++ newline ++
  jsq "{'location':'San Diego, CA','competitors':['Acme'],'services':['drain cleaning']}"
  ++ newline ++ js "```".
Definition array_response : jsstring := js "[]".
Definition null_response : jsstring := js "null".

Definition site : jsstring := js "https://example.com".
Definition manual_location : jsstring := js "Austin, TX".

(** The table of the CSV example: two columns, one record whose [term]
    holds a double quote. *)
Definition quoted_term : jsstring := jsq "a'b".
Definition example_table : ResultsTable :=
  mkTable [js "term"; js "category"] [[quoted_term; js "c"]].

(** The same record as a line of the stream. *)
Definition quoted_record_line : jsstring := jsq "{'term':'a\'b','category':'c'}".

(** A record line whose [adGroup] is an object with a [toString]
    property, which has no string conversion. *)
Definition unprintable_line : jsstring :=
  jsq "{'term':'x','category':'y','adGroup':{'toString':1}}".

(** A table whose first header text holds a double quote. *)
Definition quoted_header_table : ResultsTable :=
  mkTable [quoted_term; js "category"] [[quoted_term; js "c"]].

(** A complete record line with its seven fields. *)
Definition full_record_line : jsstring :=
  jsq "{'term': 'plumber jobs', 'category': 'Negative', 'adGroup':'General','positivePhrase':'','negativePhrase':'jobs','competitorBrand':'','locationExclusion':''}".

End Examples.
Import Examples.

(** ** Notions used to state what the whole run does *)

Module Reading.

(** [s.split('\n')]: the texts between the newlines of [s]; the last one
    is what follows the last newline. *)
Fixpoint pieces (s : jsstring) : list jsstring :=
  match s with
  | [] => [[]]
  | c :: r =>
      if N.eqb c LF then [] :: pieces r
      else match pieces r with
           | p :: ps => (c :: p) :: ps
           | [] => [[c]]
           end
  end.

(** The page after the loop body has run on the extracted text [raw]. *)
Definition after_line (w : World) (raw : jsstring) : World :=
  fst (handle_line raw w).

(** The records that the given texts decode to, in order. *)
Definition records_of (raws : list jsstring) : list (list (jsstring * JsValue)) :=
  flat_map (fun raw => match accepted (trim raw) with
                       | Some props => [props]
                       | None => []
                       end) raws.

(** The page has the results table. *)
Definition has_table (w : World) : bool :=
  match resultsTbody w with
  | Some _ => true
  | None => false
  end.

(** The warning a line leaves in the console: one when the line passes
    the brace filter and [JSON.parse] rejects it, and one when it decodes
    to a record with a field without text that a row is being filled
    with, which takes a table. *)
Definition warning_of (table : bool) (line : jsstring) : list ConsoleEntry :=
  if brace_delimited line then
    match JSON_parse line with
    | Throw e => [ConsoleWarn line e]
    | Normal _ =>
        match decoded line with
        | Some props =>
            if (table && negb (has_text props))%bool
            then [ConsoleWarn line TypeError] else []
        | None => []
        end
    end
  else [].

Definition warnings_of (table : bool) (raws : list jsstring) : list ConsoleEntry :=
  flat_map (fun raw => warning_of table (trim raw)) raws.

(** The cells of the row that a record leaves in the table. *)
Definition shown_cells (props : list (jsstring * JsValue)) : list JsValue :=
  if has_text props then map (field props) columns
  else fields_before_failure props columns ++ [JString []].

(** The table after the rows of the given records have been added. *)
Fixpoint add_rows (rows : list Row) (records : list (list (jsstring * JsValue)))
  : list Row :=
  match records with
  | [] => rows
  | props :: rest => add_rows (rows ++ [surfaced_row props rows]) rest
  end.

(** The text a chunk adds to the buffer, and the text of a whole stream. *)
Definition chunk_text (text : option jsstring) : jsstring :=
  match text with Some t => t | None => js "undefined" end.

Definition streamed_text (cs : list (option jsstring)) : jsstring :=
  concat (map chunk_text cs).

(** A row as [addResultToTable] completes it: seven cells, and a delay
    that is a multiple of 20 ms below one second. *)
Definition complete_row (row : Row) : Prop :=
  length (cells row) = 7 /\
  exists d, animationDelay row = Some d /\ (d <= 980)%N /\ (d mod 20 = 0)%N.

(** A row as [addResultToTable] leaves it when an assignment throws: at
    most seven cells, the last one empty, and no delay. *)
Definition partial_row (row : Row) : Prop :=
  1 <= length (cells row) <= 7 /\
  last (cells row) JUndefined = JString [] /\
  animationDelay row = None.

(** The run gets past the two checks of the inputs (lines 108-118). *)
Definition started (env : Surroundings) : bool :=
  match selectedFile env with
  | None => false
  | Some _ =>
      (truthy_string (trim (urlInput env))
       || truthy_string (trim (manualLocationInput env)))%bool
  end.

(** The context step of the run, on the trimmed inputs. *)
Definition run_context (env : Surroundings) : Completion BusinessContext :=
  analysis_context (generateContent env)
                   (trim (urlInput env)) (trim (manualLocationInput env)).

(** The page once a run has started: loading, the table emptied and
    shown, no error (lines 120-122). *)
Definition cleared (w : World) : World :=
  mkWorld (option_map (fun _ => []) (resultsTbody w)) true (console w) None true.

(** The page after an aborted run: the cleared page with the message and
    the loading state off. *)
Definition aborted (w : World) (entries : list ConsoleEntry) (message : UserMessage)
  : World :=
  mkWorld (option_map (fun _ => []) (resultsTbody w)) true
          (console w ++ entries) (Some message) false.

(** *** Reading a CSV text back

    A reader for texts in which every field is quoted and a quote inside
    a field is doubled; fields are separated by commas and rows by
    newlines.  The accumulators hold the current field, the current row
    and the rows read so far, all in reverse. *)
Inductive CsvState :=
| RowStart      (* at the start of a row *)
| AfterComma    (* after the comma that follows a field *)
| InField       (* inside the quotes of a field *)
| QuoteSeen.    (* after a quote inside a field: its end, or half of a doubled quote *)

Fixpoint read_csv (st : CsvState) (cur : jsstring) (row : list jsstring)
    (rows : list (list jsstring)) (s : jsstring) : option (list (list jsstring)) :=
  match s with
  | [] =>
      match st with
      | RowStart => Some (rev ([] :: rows))
      | AfterComma | InField => None
      | QuoteSeen => Some (rev (rev (rev cur :: row) :: rows))
      end
  | c :: r =>
      match st with
      | RowStart =>
          if N.eqb c 34 then read_csv InField [] [] rows r
          else if N.eqb c 10 then read_csv RowStart [] [] ([] :: rows) r
          else None
      | AfterComma =>
          if N.eqb c 34 then read_csv InField [] row rows r else None
      | InField =>
          if N.eqb c 34 then read_csv QuoteSeen cur row rows r
          else read_csv InField (c :: cur) row rows r
      | QuoteSeen =>
          if N.eqb c 34 then read_csv InField (34%N :: cur) row rows r
          else if N.eqb c 44 then read_csv AfterComma [] (rev cur :: row) rows r
          else if N.eqb c 10 then
            read_csv RowStart [] [] (rev (rev cur :: row) :: rows) r
          else None
      end
  end.

Definition parse_csv (s : jsstring) : option (list (list jsstring)) :=
  read_csv RowStart [] [] [] s.

(** The text holds no double quote, respectively no backtick. *)
Definition no_quote (s : jsstring) : bool := negb (existsb (N.eqb 34) s).
Definition no_backtick (s : jsstring) : bool := negb (existsb (N.eqb 96) s).

End Reading.
Import Reading.

(** ** Further instances *)

Module MoreExamples.

(** A file that reads, a blank URL field and a manual location. *)
Definition csv_file : jsstring := js "plumber jobs" ++ newline ++ js "drain cleaning".

Definition manual_env (stream : Completion Stream) : Surroundings :=
  mkSurroundings (Some (ReadGives csv_file)) (js "  ") (js " Austin, TX ")
                 (fun _ => ApiThrows (ApiError (js "offline")))
                 (fun _ _ => stream).

(** The same with a URL whose context request fails. *)
Definition failing_env : Surroundings :=
  mkSurroundings (Some (ReadGives csv_file)) site (js "Austin, TX")
                 (fun _ => ApiThrows (ApiError (js "offline")))
                 (fun _ _ => Normal (mkStream [] None)).

(** A URL whose context has no location, and no manual location. *)
Definition nowhere_env : Surroundings :=
  mkSurroundings (Some (ReadGives csv_file)) site []
                 (fun _ => ApiReturns (Some (jsq "{'competitors':['Acme']}")))
                 (fun _ _ => Normal (mkStream [] None)).

(** No file, and blank inputs. *)
Definition blank_env : Surroundings :=
  mkSurroundings (Some ReadFails) (js "  ") (js "   ")
                 (fun _ => ApiReturns None)
                 (fun _ _ => Normal (mkStream [] None)).

(** A file that cannot be read, and a manual location. *)
Definition unreadable_env : Surroundings :=
  mkSurroundings (Some ReadFails) [] (js "Austin, TX")
                 (fun _ => ApiReturns None)
                 (fun _ _ => Normal (mkStream [] None)).

(** A page that shows two rows and an error of an earlier run. *)
Definition used_page : World :=
  mkWorld (Some [mkRow [JString (js "old")] None; mkRow [] None]) true []
          (Some NoLocation) false.

(** A stream of two chunks that splits a record. *)
Definition split_record : list (option jsstring) :=
  [Some (jsq "{'term':'x','cate"); Some (jsq "gory':'Negative'}" ++ newline)].


(** A record split over two chunks, then a record whose third field
    has no text. *)
Definition unprintable_chunks : list (option jsstring) :=
  [Some (jsq "{'term':'x','cate"); Some (jsq "gory':'Negative'}" ++ newline);
   Some (unprintable_line ++ newline)].

(** Chunks of white space only. *)
Definition blank_chunks : list (option jsstring) :=
  [Some (js "  " ++ newline); Some (newline ++ js " ")].

(** A table whose cells hold commas, quotes and a newline. *)
Definition awkward_table : ResultsTable :=
  mkTable [js "term"; js "category"]
          [[jsq "a'b,c"; js "x" ++ newline ++ js "y"]; []; [[]; jsq "''"]].

End MoreExamples.
Import MoreExamples.

(** * Properties *)

Unset Implicit Arguments.

(** ** Facts about strings *)

Module StringFacts.

Lemma cut_none_iff s : cut s = None <-> ~ In LF s.
Proof.
  induction s as [|c r IH]; simpl.
  - tauto.
  - destruct (N.eqb_spec c LF) as [->|Hne].
    + split; [discriminate | intros H; exfalso; apply H; now left].
    + destruct (cut r) as [[l rest]|].
      * split; [discriminate|]. intros H. exfalso.
        destruct (in_dec N.eq_dec LF r) as [Hin|Hnin].
        -- apply H. now right.
        -- apply IH in Hnin. discriminate.
      * split; [|reflexivity]. intros _ [Heq|Hin]; [congruence|tauto].
Qed.

Lemma cut_some s l rest : cut s = Some (l, rest) -> s = l ++ LF :: rest /\ ~ In LF l.
Proof.
  revert l rest. induction s as [|c r IH]; simpl; intros l rest H.
  - discriminate.
  - destruct (N.eqb_spec c LF) as [->|Hne].
    + inversion H; subst. split; [reflexivity | intros []].
    + destruct (cut r) as [[l' rest']|]; [|discriminate].
      inversion H; subst. destruct (IH _ _ eq_refl) as [-> Hl].
      split; [reflexivity|]. intros [Heq|Hin]; [congruence|tauto].
Qed.

Lemma cut_length s l rest : cut s = Some (l, rest) -> length rest < length s.
Proof.
  intros H. apply cut_some in H. destruct H as [-> _].
  rewrite length_app. simpl. lia.
Qed.

Lemma cut_app s t l rest : cut s = Some (l, rest) -> cut (s ++ t) = Some (l, rest ++ t).
Proof.
  revert l rest. induction s as [|c r IH]; simpl; intros l rest H.
  - discriminate.
  - destruct (N.eqb c LF).
    + now inversion H.
    + destruct (cut r) as [[l' rest']|]; [|discriminate].
      inversion H; subst. now rewrite (IH _ _ eq_refl).
Qed.

Lemma cut_line s : ~ In LF s -> cut (s ++ newline) = Some (s, []).
Proof.
  induction s as [|c r IH]; simpl; intros H.
  - reflexivity.
  - destruct (N.eqb_spec c LF) as [->|Hne]; [exfalso; apply H; now left|].
    rewrite IH; [reflexivity|]. intros Hin. apply H. now right.
Qed.

Lemma find_newline_cons c s :
  find newline (c :: s) =
  if N.eqb c LF then Some 0 else option_map S (find newline s).
Proof.
  change (find newline (c :: s))
    with (if (N.eqb LF c && true)%bool then Some 0 else option_map S (find newline s)).
  rewrite andb_true_r, N.eqb_sym. reflexivity.
Qed.

(** [indexOf] and the two [substring] calls of the loop compute [cut]. *)
Lemma find_cut s :
  match cut s with
  | Some (l, rest) => find newline s = Some (length l)
  | None => find newline s = None
  end.
Proof.
  induction s as [|c r IH].
  - reflexivity.
  - rewrite find_newline_cons. simpl. destruct (N.eqb c LF); [reflexivity|].
    destruct (cut r) as [[l rest]|]; rewrite IH; reflexivity.
Qed.

Lemma indexOf_cut_none s : cut s = None -> indexOf s newline = (-1)%Z.
Proof.
  intros H. pose proof (find_cut s) as F. rewrite H in F.
  unfold indexOf. now rewrite F.
Qed.

Lemma indexOf_cut_some s l rest :
  cut s = Some (l, rest) -> indexOf s newline = Z.of_nat (length l).
Proof.
  intros H. pose proof (find_cut s) as F. rewrite H in F.
  unfold indexOf. now rewrite F.
Qed.


Lemma substring_line s l rest :
  s = l ++ LF :: rest ->
  substring s 0 (Some (Z.of_nat (length l))) = l.
Proof.
  intros ->. unfold substring, clamp. rewrite length_app. simpl length.
  replace (Z.min (Z.max 0 0) _) with 0%Z by lia.
  replace (Z.min (Z.max (Z.of_nat (length l)) 0) _) with (Z.of_nat (length l)) by lia.
  replace (Z.min 0 _) with 0%Z by lia.
  replace (Z.max 0 _) with (Z.of_nat (length l)) by lia.
  rewrite Z.sub_0_r, Nat2Z.id. simpl skipn.
  rewrite firstn_app, firstn_all, Nat.sub_diag. simpl. apply app_nil_r.
Qed.

Lemma substring_rest s l rest :
  s = l ++ LF :: rest ->
  substring s (Z.of_nat (length l) + 1) None = rest.
Proof.
  intros ->. unfold substring, clamp. rewrite length_app. simpl length.
  set (n := length l). set (m := length rest).
  replace (Z.min (Z.max (Z.of_nat n + 1) 0) _) with (Z.of_nat (n + 1)) by lia.
  replace (Z.min (Z.of_nat (n + 1)) _) with (Z.of_nat (n + 1)) by lia.
  replace (Z.max (Z.of_nat (n + 1)) _) with (Z.of_nat (n + S m)) by lia.
  rewrite Nat2Z.id.
  replace (Z.to_nat (Z.of_nat (n + S m) - Z.of_nat (n + 1))) with m by lia.
  rewrite skipn_app. subst n.
  rewrite skipn_all2 by lia.
  replace (length l + 1 - length l) with 1 by lia. simpl.
  subst m. apply firstn_all.
Qed.

End StringFacts.

(** ** Facts about the JSON parser *)

Module JsonFacts.

#[local] Arguments N.eqb : simpl never.
#[local] Arguments N.leb : simpl never.
#[local] Arguments N.ltb : simpl never.
#[local] Arguments isPrefix : simpl never.
#[local] Arguments skipn : simpl never.
#[local] Arguments skip_ws : simpl never.
#[local] Arguments parse_string_body : simpl never.
#[local] Arguments parse_number : simpl never.

(** [rest] is what remains of [s] after some prefix was read. *)
Definition Suffix (rest s : jsstring) : Prop := exists pre, s = pre ++ rest.

Lemma Suffix_refl s : Suffix s s.
Proof. now exists []. Qed.

Lemma Suffix_trans a b c : Suffix a b -> Suffix b c -> Suffix a c.
Proof. intros [p ->] [q ->]. exists (q ++ p). now rewrite app_assoc. Qed.

Lemma Suffix_tail c s : Suffix s (c :: s).
Proof. now exists [c]. Qed.

Lemma Suffix_length rest s : Suffix rest s -> length rest <= length s.
Proof. intros [pre ->]. rewrite length_app. lia. Qed.

Lemma Suffix_skipn n s : Suffix (skipn n s) s.
Proof. exists (firstn n s). symmetry. apply firstn_skipn. Qed.

(** Destructs, one after the other, the scrutinees of the matches in [H]. *)
Ltac break H :=
  repeat match type of H with
         | context [match ?x with _ => _ end] =>
             lazymatch x with
             | context [match _ with _ => _ end] => fail
             | _ => destruct x eqn:?; try discriminate H
             end
         end.

(** Turns the suffix facts in the context into facts about lengths. *)
Ltac lengths :=
  repeat match goal with
         | H : Suffix _ _ |- _ => apply Suffix_length in H
         end;
  simpl length in *; try lia.

Lemma dropWhile_Suffix p s : Suffix (dropWhile p s) s.
Proof.
  induction s as [|c r IH]; simpl.
  - apply Suffix_refl.
  - destruct (p c); [|apply Suffix_refl].
    eapply Suffix_trans; [exact IH | apply Suffix_tail].
Qed.

Lemma skip_ws_Suffix s : Suffix (skip_ws s) s.
Proof. apply dropWhile_Suffix. Qed.

Lemma parse_string_body_Suffix s str rest :
  parse_string_body s = Some (str, rest) ->
  Suffix rest s /\ length rest < length s.
Proof.
  remember (length s) as n eqn:Hn. revert s str rest Hn.
  induction n as [n IH] using lt_wf_ind. intros s str rest Hn H.
  destruct s as [|c r]; [discriminate|].
  unfold parse_string_body in H; fold parse_string_body in H.
  destruct (N.eqb c 34).
  { inversion H; subst. split; [apply Suffix_tail | simpl; lia]. }
  destruct (N.eqb c 92).
  - destruct r as [|e r1]; [discriminate|].
    destruct (N.eqb e 117).
    + destruct r1 as [|h1 [|h2 [|h3 [|h4 r2]]]]; try discriminate.
      destruct (hexValue h1), (hexValue h2), (hexValue h3), (hexValue h4);
        try discriminate.
      destruct (parse_string_body r2) as [[str' rest']|] eqn:E; [|discriminate].
      inversion H; subst.
      pose proof (IH (length r2) ltac:(simpl; lia) r2 _ _ eq_refl E) as [S1 L1].
      split; [|simpl; lia].
      destruct S1 as [pre ->]. exists (c :: e :: h1 :: h2 :: h3 :: h4 :: pre).
      reflexivity.
    + destruct (simpleEscape e); [|discriminate].
      destruct (parse_string_body r1) as [[str' rest']|] eqn:E; [|discriminate].
      inversion H; subst.
      pose proof (IH (length r1) ltac:(simpl; lia) r1 _ _ eq_refl E) as [S1 L1].
      split; [|simpl; lia].
      destruct S1 as [pre ->]. exists (c :: e :: pre). reflexivity.
  - destruct (N.ltb c 32); [discriminate|].
    destruct (parse_string_body r) as [[str' rest']|] eqn:E; [|discriminate].
    inversion H; subst.
    pose proof (IH (length r) ltac:(simpl; lia) r _ _ eq_refl E) as [S1 L1].
    split; [|simpl; lia].
    destruct S1 as [pre ->]. exists (c :: pre). reflexivity.
Qed.

Lemma span_digits_Suffix s ds rest : span_digits s = (ds, rest) -> Suffix rest s.
Proof.
  revert ds rest. induction s as [|c r IH]; simpl; intros ds rest H.
  - inversion H. apply Suffix_refl.
  - destruct (isDigit c).
    + destruct (span_digits r) as [ds' rest'] eqn:E. inversion H; subst.
      eapply Suffix_trans; [apply (IH _ _ eq_refl) | apply Suffix_tail].
    + inversion H. apply Suffix_refl.
Qed.

Lemma span_digits_nonempty s ds rest :
  span_digits s = (ds, rest) -> ds <> [] -> length rest < length s.
Proof.
  destruct s as [|c r]; simpl; intros H Hne.
  - inversion H; subst. contradiction.
  - destruct (isDigit c).
    + destruct (span_digits r) as [ds' rest'] eqn:E. inversion H; subst.
      apply span_digits_Suffix in E. lengths.
    + inversion H; subst. contradiction.
Qed.

Lemma parse_int_Suffix s ds rest :
  parse_int s = Some (ds, rest) -> Suffix rest s /\ length rest < length s.
Proof.
  unfold parse_int. intros H. destruct s as [|c r]; [discriminate|].
  destruct (N.eqb c 48).
  - inversion H; subst. split; [apply Suffix_tail | simpl; lia].
  - destruct (isDigit c) eqn:D; [|discriminate].
    assert (E : span_digits (c :: r) = (ds, rest)) by congruence.
    split; [exact (span_digits_Suffix _ _ _ E)|].
    apply (span_digits_nonempty _ _ _ E).
    simpl in E. rewrite D in E.
    destruct (span_digits r); inversion E; discriminate.
Qed.

Lemma parse_frac_Suffix s ds rest : parse_frac s = Some (ds, rest) -> Suffix rest s.
Proof.
  unfold parse_frac. intros H. destruct s as [|c r].
  - inversion H. apply Suffix_refl.
  - destruct (N.eqb c 46).
    + destruct (span_digits r) as [[|d ds'] rest'] eqn:E; [discriminate|].
      inversion H; subst. apply span_digits_Suffix in E.
      eapply Suffix_trans; [exact E | apply Suffix_tail].
    + inversion H. apply Suffix_refl.
Qed.

Lemma parse_exp_Suffix s e rest : parse_exp s = Some (e, rest) -> Suffix rest s.
Proof.
  unfold parse_exp. intros H. destruct s as [|c r].
  - inversion H. apply Suffix_refl.
  - destruct (N.eqb c 101 || N.eqb c 69)%bool.
    + assert (Hdigits : forall negative r1,
                 Suffix r1 r ->
                 match span_digits r1 with
                 | ([], _) => None
                 | (ds, rest0) =>
                     let e0 := Z.of_N (digits_value ds) in
                     Some (if negative : bool then (- e0)%Z else e0, rest0)
                 end = Some (e, rest) -> Suffix rest (c :: r)).
      { intros negative r1 S1 Hd.
        destruct (span_digits r1) as [[|d ds'] rest'] eqn:E; [discriminate|].
        inversion Hd; subst. apply span_digits_Suffix in E.
        eapply Suffix_trans; [exact E|].
        eapply Suffix_trans; [exact S1 | apply Suffix_tail]. }
      destruct r as [|sg r'].
      * apply (Hdigits false []); [apply Suffix_refl | exact H].
      * destruct (N.eqb sg 45);
          [apply (Hdigits true r'); [apply Suffix_tail | exact H]|].
        destruct (N.eqb sg 43).
        -- apply (Hdigits false r'); [apply Suffix_tail | exact H].
        -- apply (Hdigits false (sg :: r')); [apply Suffix_refl | exact H].
    + inversion H. apply Suffix_refl.
Qed.

Lemma parse_number_Suffix s n rest :
  parse_number s = Some (n, rest) -> Suffix rest s /\ length rest < length s.
Proof.
  unfold parse_number. intros H.
  destruct (match s with [] => _ | _ => _ end) as [neg s1] eqn:Es.
  assert (S1 : Suffix s1 s).
  { destruct s as [|c r]; [inversion Es; apply Suffix_refl|].
    destruct (N.eqb c 45); inversion Es; [apply Suffix_tail | apply Suffix_refl]. }
  destruct (parse_int s1) as [[ints s2]|] eqn:Ei; [|discriminate].
  destruct (parse_frac s2) as [[fracs s3]|] eqn:Ef; [|discriminate].
  destruct (parse_exp s3) as [[e s4]|] eqn:Ee; [|discriminate].
  inversion H; subst.
  apply parse_int_Suffix in Ei. destruct Ei as [S2 L2].
  apply parse_frac_Suffix in Ef. apply parse_exp_Suffix in Ee.
  split.
  - eauto using Suffix_trans.
  - lengths.
Qed.

(** Proves that a text is a suffix of another by walking down the suffix
    facts at hand. *)
Ltac suffix_chain :=
  first
    [ apply Suffix_refl
    | assumption
    | apply Suffix_skipn
    | match goal with
      | H : Suffix ?m ?s |- Suffix _ ?s =>
          lazymatch m with
          | s => fail
          | _ => apply (Suffix_trans _ m s); [suffix_chain | exact H]
          end
      end
    | match goal with
      | |- Suffix _ (?c :: ?r) =>
          apply (Suffix_trans _ r (c :: r)); [suffix_chain | apply Suffix_tail]
      end ].

(** What a successful parse has read: the rest is a proper suffix of the
    input, and an object starts with a left brace after white space and
    ends with the right brace just before the rest. *)
Lemma parse_sound fuel :
  (forall s v rest,
      parse_value fuel s = POk (v, rest) ->
      Suffix rest s /\ length rest < length s /\
      (forall props, v = JObject props ->
         (exists r, skip_ws s = 123%N :: r) /\ Suffix (125%N :: rest) s)) /\
  (forall s vs rest,
      parse_elements fuel s = POk (vs, rest) ->
      Suffix rest s /\ length rest < length s) /\
  (forall s acc props rest,
      parse_members fuel s acc = POk (props, rest) ->
      Suffix (125%N :: rest) s).
Proof.
  induction fuel as [|f [IHv [IHe IHm]]].
  { repeat split; intros; discriminate. }
  split; [|split].
  - intros s v rest H. simpl in H.
    destruct (skip_ws s) as [|c r] eqn:Ews; [discriminate|].
    pose proof (skip_ws_Suffix s) as Sws. rewrite Ews in Sws.
    destruct (N.eqb_spec c 123) as [->|_].
    { destruct (skip_ws r) as [|c1 r1] eqn:Ews1; [discriminate|].
      pose proof (skip_ws_Suffix r) as Sws1. rewrite Ews1 in Sws1.
      assert (Hclose : Suffix (125%N :: rest) (c1 :: r1) ->
                       exists props, v = JObject props).
      { intros _. destruct (N.eqb c1 125); [inversion H; eauto|].
        destruct (parse_members f (c1 :: r1) []) as [[props rest']| |];
          inversion H; eauto. }
      assert (Sclose : Suffix (125%N :: rest) (c1 :: r1)).
      { destruct (N.eqb_spec c1 125) as [->|_].
        - inversion H; subst. apply Suffix_refl.
        - destruct (parse_members f (c1 :: r1) []) as [[props rest']| |] eqn:Em;
            try discriminate.
          inversion H; subst. exact (IHm _ _ _ _ Em). }
      assert (Sall : Suffix (125%N :: rest) s) by suffix_chain.
      split; [suffix_chain|]. split; [lengths|].
      intros props _. split; [eauto | exact Sall]. }
    destruct (N.eqb_spec c 91) as [->|_].
    { destruct (skip_ws r) as [|c1 r1] eqn:Ews1; [discriminate|].
      pose proof (skip_ws_Suffix r) as Sws1. rewrite Ews1 in Sws1.
      destruct (N.eqb c1 93).
      - inversion H; subst. split; [suffix_chain|]. split; [lengths|].
        intros props Hv; discriminate Hv.
      - destruct (parse_elements f (c1 :: r1)) as [[vs rest']| |] eqn:Ee;
          try discriminate.
        inversion H; subst. destruct (IHe _ _ _ Ee) as [Se Le].
        split; [suffix_chain|]. split; [lengths|].
        intros props Hv; discriminate Hv. }
    destruct (N.eqb c 34).
    { destruct (parse_string_body r) as [[str rest']|] eqn:Es; [|discriminate].
      inversion H; subst. destruct (parse_string_body_Suffix _ _ _ Es) as [Ss Ls].
      split; [suffix_chain|]. split; [lengths|].
      intros props Hv; discriminate Hv. }
    destruct (N.eqb c 45 || isDigit c)%bool.
    { destruct (parse_number (c :: r)) as [[n rest']|] eqn:En; [|discriminate].
      inversion H; subst. destruct (parse_number_Suffix _ _ _ En) as [Sn Ln].
      split; [suffix_chain|]. split; [lengths|].
      intros props Hv; discriminate Hv. }
    assert (Hskip : forall n, Suffix (skipn (S n) (c :: r)) s /\
                              length (skipn (S n) (c :: r)) < length s).
    { intros n. split.
      - eapply Suffix_trans; [apply Suffix_skipn | exact Sws].
      - change (skipn (S n) (c :: r)) with (skipn n r).
        pose proof (Suffix_length _ _ (Suffix_skipn n r)). lengths. }
    destruct (isPrefix _ (c :: r));
      [inversion H; subst; destruct (Hskip 3) as [S1 L1];
       split; [exact S1|]; split; [exact L1|]; intros props Hv; discriminate Hv|].
    destruct (isPrefix _ (c :: r));
      [inversion H; subst; destruct (Hskip 4) as [S1 L1];
       split; [exact S1|]; split; [exact L1|]; intros props Hv; discriminate Hv|].
    destruct (isPrefix _ (c :: r)); [|discriminate].
    inversion H; subst; destruct (Hskip 3) as [S1 L1].
    split; [exact S1|]. split; [exact L1|]. intros props Hv; discriminate Hv.
  - intros s vs rest H. simpl in H.
    destruct (parse_value f s) as [[v r]| |] eqn:Ev; try discriminate.
    destruct (IHv _ _ _ Ev) as [Sv [Lv _]].
    destruct (skip_ws r) as [|c r1] eqn:Ews; [discriminate|].
    pose proof (skip_ws_Suffix r) as Sws. rewrite Ews in Sws.
    destruct (N.eqb c 93).
    + inversion H; subst. split; [suffix_chain | lengths].
    + destruct (N.eqb c 44); [|discriminate].
      destruct (parse_elements f r1) as [[vs' rest']| |] eqn:Ee; try discriminate.
      inversion H; subst. destruct (IHe _ _ _ Ee) as [Se Le].
      split; [suffix_chain | lengths].
  - intros s acc props rest H. simpl in H.
    destruct s as [|q r]; [discriminate|].
    destruct (N.eqb q 34); [|discriminate].
    destruct (parse_string_body r) as [[key r1]|] eqn:Es; [|discriminate].
    destruct (parse_string_body_Suffix _ _ _ Es) as [Ss _].
    destruct (skip_ws r1) as [|colon r2] eqn:Ews; [discriminate|].
    pose proof (skip_ws_Suffix r1) as Sws. rewrite Ews in Sws.
    destruct (N.eqb colon 58); [|discriminate].
    destruct (parse_value f r2) as [[v r3]| |] eqn:Ev; try discriminate.
    destruct (IHv _ _ _ Ev) as [Sv _].
    destruct (skip_ws r3) as [|c r4] eqn:Ews3; [discriminate|].
    pose proof (skip_ws_Suffix r3) as Sws3. rewrite Ews3 in Sws3.
    destruct (N.eqb_spec c 125) as [->|_].
    + inversion H; subst. suffix_chain.
    + destruct (N.eqb c 44); [|discriminate].
      apply IHm in H. pose proof (skip_ws_Suffix r4) as Sws4.
      suffix_chain.
Qed.

(** The fuel [JSON_parse] gives is enough: parsing never stops for lack
    of it. *)
Lemma parse_fuel fuel :
  (forall s, 2 * length s < fuel -> parse_value fuel s <> POutOfFuel) /\
  (forall s, 2 * length s + 1 < fuel -> parse_elements fuel s <> POutOfFuel) /\
  (forall s acc, 2 * length s < fuel -> parse_members fuel s acc <> POutOfFuel).
Proof.
  induction fuel as [|f [IHv [IHe IHm]]].
  { repeat split; intros; lia. }
  split; [|split].
  - intros s L H. simpl in H.
    destruct (skip_ws s) as [|c r] eqn:Ews; [discriminate|].
    pose proof (skip_ws_Suffix s) as Sws. rewrite Ews in Sws.
    destruct (N.eqb c 123).
    { destruct (skip_ws r) as [|c1 r1] eqn:Ews1; [discriminate|].
      pose proof (skip_ws_Suffix r) as Sws1. rewrite Ews1 in Sws1.
      destruct (N.eqb c1 125); [discriminate|].
      destruct (parse_members f (c1 :: r1) []) as [[props rest']| |] eqn:Em;
        try discriminate.
      apply IHm in Em; [exact Em|]. lengths. }
    destruct (N.eqb c 91).
    { destruct (skip_ws r) as [|c1 r1] eqn:Ews1; [discriminate|].
      pose proof (skip_ws_Suffix r) as Sws1. rewrite Ews1 in Sws1.
      destruct (N.eqb c1 93); [discriminate|].
      destruct (parse_elements f (c1 :: r1)) as [[vs rest']| |] eqn:Ee;
        try discriminate.
      apply IHe in Ee; [exact Ee|]. lengths. }
    destruct (N.eqb c 34).
    { destruct (parse_string_body r) as [[str rest']|]; discriminate. }
    destruct (N.eqb c 45 || isDigit c)%bool.
    { destruct (parse_number (c :: r)) as [[n rest']|]; discriminate. }
    repeat (destruct (isPrefix _ (c :: r)); [discriminate|]).
    discriminate.
  - intros s L H. simpl in H.
    destruct (parse_value f s) as [[v r]| |] eqn:Ev; try discriminate.
    + destruct (proj1 (parse_sound f) _ _ _ Ev) as [Sv [Lv _]].
      destruct (skip_ws r) as [|c r1] eqn:Ews; [discriminate|].
      pose proof (skip_ws_Suffix r) as Sws. rewrite Ews in Sws.
      destruct (N.eqb c 93); [discriminate|].
      destruct (N.eqb c 44); [|discriminate].
      destruct (parse_elements f r1) as [[vs' rest']| |] eqn:Ee; try discriminate.
      apply IHe in Ee; [exact Ee|]. lengths.
    + apply IHv in Ev; [exact Ev|]. lia.
  - intros s acc L H. simpl in H.
    destruct s as [|q r]; [discriminate|].
    destruct (N.eqb q 34); [|discriminate].
    destruct (parse_string_body r) as [[key r1]|] eqn:Es; [|discriminate].
    destruct (parse_string_body_Suffix _ _ _ Es) as [Ss _].
    destruct (skip_ws r1) as [|colon r2] eqn:Ews; [discriminate|].
    pose proof (skip_ws_Suffix r1) as Sws. rewrite Ews in Sws.
    destruct (N.eqb colon 58); [|discriminate].
    destruct (parse_value f r2) as [[v r3]| |] eqn:Ev; try discriminate.
    + destruct (proj1 (parse_sound f) _ _ _ Ev) as [Sv [Lv _]].
      destruct (skip_ws r3) as [|c r4] eqn:Ews3; [discriminate|].
      pose proof (skip_ws_Suffix r3) as Sws3. rewrite Ews3 in Sws3.
      destruct (N.eqb c 125); [discriminate|].
      destruct (N.eqb c 44); [|discriminate].
      apply IHm in H; [exact H|].
      pose proof (skip_ws_Suffix r4) as Sws4. lengths.
    + apply IHv in Ev; [exact Ev|]. lengths.
Qed.

Corollary JSON_parse_fuel text :
  parse_value (S (2 * length text)) text <> POutOfFuel.
Proof. apply (proj1 (parse_fuel (S (2 * length text)))). lia. Qed.

(** [JSON.parse] never returns [undefined]. *)
Lemma JSON_parse_defined text v : JSON_parse text = Normal v -> v <> JUndefined.
Proof.
  unfold JSON_parse. intros H.
  destruct (parse_value _ text) as [[v' rest]| |] eqn:E; try discriminate.
  destruct (skip_ws rest); [|discriminate]. inversion H; subst. clear H.
  simpl in E. break E; inversion E; discriminate.
Qed.

End JsonFacts.

(** ** Facts about [trim] and the decode step *)

Module DecodeFacts.
Import JsonFacts.

#[local] Arguments N.eqb : simpl never.

Lemma dropWhile_head p s c r : dropWhile p s = c :: r -> p c = false.
Proof.
  induction s as [|x s IH]; simpl; [discriminate|].
  destruct (p x) eqn:E; [exact IH|]. intros H. inversion H; subst. exact E.
Qed.

Lemma dropWhile_nil p s : dropWhile p s = [] -> forallb p s = true.
Proof.
  induction s as [|x s IH]; simpl; [reflexivity|].
  destruct (p x); [exact IH | discriminate].
Qed.

Lemma trimEnd_prefix s : exists post, s = trimEnd s ++ post.
Proof.
  unfold trimEnd. destruct (dropWhile_Suffix isTrimmed (rev s)) as [pre H].
  exists (rev pre). rewrite <- rev_app_distr, <- H. symmetry. apply rev_involutive.
Qed.

Lemma trim_head raw c r : trim raw = c :: r -> isTrimmed c = false.
Proof.
  unfold trim. intros H.
  destruct (trimEnd_prefix (trimStart raw)) as [post Hp]. rewrite H in Hp.
  exact (dropWhile_head _ _ _ _ Hp).
Qed.

Lemma trim_last raw pre c : trim raw = pre ++ [c] -> isTrimmed c = false.
Proof.
  unfold trim, trimEnd. intros H.
  apply (f_equal (@rev _)) in H. rewrite rev_involutive, rev_app_distr in H.
  exact (dropWhile_head _ _ _ _ H).
Qed.

Lemma isJsonWs_isTrimmed c : isJsonWs c = true -> isTrimmed c = true.
Proof.
  unfold isJsonWs, isTrimmed, isWhiteSpace, isLineTerminator. intros H.
  repeat (apply orb_true_iff in H; destruct H as [H|H]);
    apply N.eqb_eq in H; subst; reflexivity.
Qed.

Lemma startsWith_brace line : startsWith line (js "{") = true <-> exists r, line = 123%N :: r.
Proof.
  unfold startsWith. simpl. destruct line as [|c r]; simpl.
  - split; [discriminate | intros [r H]; discriminate].
  - rewrite andb_true_r, N.eqb_eq. split.
    + intros <-. eauto.
    + intros [r' H]. now inversion H.
Qed.

Lemma endsWith_brace line : endsWith line (js "}") = true <-> exists pre, line = pre ++ [125%N].
Proof.
  unfold endsWith. simpl. split.
  - destruct (rev line) as [|c r] eqn:E; simpl; [discriminate|].
    rewrite andb_true_r, N.eqb_eq. intros <-. exists (rev r).
    apply (f_equal (@rev _)) in E. rewrite rev_involutive in E. exact E.
  - intros [pre ->]. rewrite rev_app_distr. reflexivity.
Qed.

(** A text that [JSON.parse] accepts as an object starts, after white
    space, with a left brace and ends, before white space, with a right
    brace. *)
Lemma JSON_parse_object text props :
  JSON_parse text = Normal (JObject props) ->
  (exists r, skip_ws text = 123%N :: r) /\
  (exists rest, Suffix (125%N :: rest) text /\ skip_ws rest = []).
Proof.
  unfold JSON_parse. intros H.
  destruct (parse_value _ text) as [[v rest]| |] eqn:E; try discriminate.
  destruct (skip_ws rest) eqn:Ews; [|discriminate].
  inversion H; subst.
  destruct (proj1 (parse_sound _) _ _ _ E) as [_ [_ Hobj]].
  destruct (Hobj props eq_refl) as [Hstart Hend]. eauto.
Qed.

(** What starts with a left brace parses to an object or not at all. *)
Lemma JSON_parse_brace r v :
  JSON_parse (123%N :: r) = Normal v -> exists props, v = JObject props.
Proof.
  unfold JSON_parse. intros H.
  destruct (parse_value _ _) as [[v' rest]| |] eqn:E; try discriminate.
  destruct (skip_ws rest); [|discriminate]. inversion H; subst.
  cbn [parse_value] in E. change (skip_ws (123%N :: r)) with (123%N :: r) in E.
  change (N.eqb 123 123) with true in E. cbv iota in E.
  destruct (skip_ws r) as [|c1 r1]; [discriminate|].
  destruct (N.eqb c1 125); [inversion E; eauto|].
  destruct (parse_members _ _ _) as [[props rest']| |]; inversion E; eauto.
Qed.

(** On a trimmed line the brace filter rejects no JSON object. *)
Lemma trimmed_object_brace_delimited raw props :
  JSON_parse (trim raw) = Normal (JObject props) ->
  brace_delimited (trim raw) = true.
Proof.
  intros H. destruct (JSON_parse_object _ _ H) as [[r Hstart] [rest [Hend Hws]]].
  unfold brace_delimited. apply andb_true_iff. split.
  - apply startsWith_brace.
    destruct (trim raw) as [|c line] eqn:E.
    + discriminate.
    + pose proof (trim_head _ _ _ E) as Hc.
      unfold skip_ws in Hstart. simpl in Hstart.
      destruct (isJsonWs c) eqn:Ec.
      * apply isJsonWs_isTrimmed in Ec. congruence.
      * inversion Hstart. eauto.
  - apply endsWith_brace. destruct Hend as [pre Hend].
    destruct rest as [|x rest'] using rev_ind; [eauto|].
    exfalso. clear IHrest'.
    apply dropWhile_nil in Hws. rewrite forallb_app in Hws.
    apply andb_true_iff in Hws. destruct Hws as [_ Hx]. simpl in Hx.
    rewrite andb_true_r in Hx. apply isJsonWs_isTrimmed in Hx.
    change (pre ++ 125%N :: rest' ++ [x]) with (pre ++ (125%N :: rest') ++ [x]) in Hend.
    rewrite app_assoc in Hend. apply trim_last in Hend. congruence.
Qed.

Lemma field_truthy props key :
  match Get (JObject props) key with
  | Normal v => ToBoolean v
  | Throw _ => false
  end = nonempty_field props key.
Proof.
  unfold Get, nonempty_field. destruct (lookup key props) as [v|]; [|reflexivity].
  destruct v as [| |b|n|s|l|o]; simpl; try reflexivity.
  - now destruct b.
  - now destruct s.
Qed.

Lemma Get_object props key : Get (JObject props) key = Normal (field props key).
Proof. unfold Get, field. now destruct (lookup key props). Qed.

(** The cells of a row are filled up to the first field without a text,
    at which the assignment throws. *)
Lemma insertCells_object props keys :
  insertCells (JObject props) keys =
  if forallb (fun key => ToString_completes (field props key)) keys
  then (map (field props) keys, Normal tt)
  else (fields_before_failure props keys ++ [JString []], Throw TypeError).
Proof.
  induction keys as [|k ks IH]; [reflexivity|].
  cbn [insertCells]. rewrite Get_object.
  cbn [forallb fields_before_failure map].
  destruct (ToString_completes (field props k)); [|reflexivity].
  rewrite IH. cbn [andb].
  now destruct (forallb _ ks).
Qed.

Lemma addResultToTable_object props w rows :
  resultsTbody w = Some rows ->
  addResultToTable (JObject props) w =
  (set_tbody w (rows ++ [surfaced_row props rows]),
   if has_text props then Normal tt else Throw TypeError).
Proof.
  intros H. unfold addResultToTable, surfaced_row, has_text.
  rewrite H, insertCells_object.
  now destruct (forallb _ columns).
Qed.

Lemma surfaced_row_complete props rows :
  has_text props = true -> surfaced_row props rows = record_row props rows.
Proof. intros H. unfold surfaced_row. now rewrite H. Qed.

Lemma addResultToTable_no_table item w :
  resultsTbody w = None -> addResultToTable item w = (w, Normal tt).
Proof. intros H. unfold addResultToTable. now rewrite H. Qed.

(** The decode step, case by case. *)
Lemma tryParse_filtered line w :
  brace_delimited line = false -> tryParseAndDisplay line w = (w, Normal tt).
Proof.
  intros H. unfold tryParseAndDisplay, try_catch. unfold brace_delimited in H.
  rewrite H. reflexivity.
Qed.

Lemma brace_delimited_truthy line :
  brace_delimited line = true -> truthy_string line = true.
Proof.
  unfold brace_delimited. intros H. apply andb_true_iff in H. destruct H as [H _].
  apply startsWith_brace in H. destruct H as [r ->]. reflexivity.
Qed.

Lemma tryParse_syntax_error line e w :
  brace_delimited line = true -> JSON_parse line = Throw e ->
  tryParseAndDisplay line w = (log w (ConsoleWarn line e), Normal tt).
Proof.
  intros Hb Hp. pose proof (brace_delimited_truthy _ Hb) as Ht.
  unfold tryParseAndDisplay, try_catch. unfold brace_delimited in Hb.
  rewrite Hb, Ht. unfold bind, lift. rewrite Hp. reflexivity.
Qed.

Lemma tryParse_object line props w :
  brace_delimited line = true -> JSON_parse line = Normal (JObject props) ->
  tryParseAndDisplay line w =
  if (nonempty_field props (js "term") && nonempty_field props (js "category"))%bool
  then match resultsTbody w with
       | Some rows =>
           if has_text props
           then (set_tbody w (rows ++ [surfaced_row props rows]), Normal tt)
           else (log (set_tbody w (rows ++ [surfaced_row props rows]))
                     (ConsoleWarn line TypeError), Normal tt)
       | None => (w, Normal tt)
       end
  else (w, Normal tt).
Proof.
  intros Hb Hp. pose proof (brace_delimited_truthy _ Hb) as Ht.
  unfold tryParseAndDisplay, try_catch. unfold brace_delimited in Hb.
  rewrite Hb, Ht. unfold bind, lift. rewrite Hp.
  rewrite <- !field_truthy. unfold Get, ret.
  destruct (lookup (js "term") props) as [t|];
    [|reflexivity].
  destruct (ToBoolean t) eqn:Et; [|cbn; now rewrite Et].
  destruct (lookup (js "category") props) as [c|]; [|reflexivity].
  cbn [negb andb]. cbv iota beta.
  destruct (ToBoolean c); [|reflexivity].
  destruct (resultsTbody w) as [rows|] eqn:Er.
  - rewrite (addResultToTable_object _ _ _ Er). now destruct (has_text props).
  - now rewrite (addResultToTable_no_table _ _ Er).
Qed.

(** The decode step never throws. *)
Lemma tryParse_normal line w : snd (tryParseAndDisplay line w) = Normal tt.
Proof.
  destruct (brace_delimited line) eqn:Hb.
  - destruct line as [|c r]; [discriminate|].
    assert (c = 123%N) as ->.
    { unfold brace_delimited in Hb. apply andb_true_iff in Hb. destruct Hb as [Hs _].
      apply startsWith_brace in Hs. destruct Hs as [r' Hs]. now inversion Hs. }
    destruct (JSON_parse (123%N :: r)) as [v|e] eqn:Hp.
    + destruct (JSON_parse_brace _ _ Hp) as [props ->].
      rewrite (tryParse_object _ _ w Hb Hp).
      destruct (_ && _)%bool; [|reflexivity].
      destruct (resultsTbody w); [|reflexivity].
      now destruct (has_text props).
    + now rewrite (tryParse_syntax_error _ _ w Hb Hp).
  - now rewrite tryParse_filtered.
Qed.

(** The whole effect of the decode step on the page. *)
Lemma tryParse_effect line w :
  tryParseAndDisplay line w =
  match accepted line with
  | Some props =>
      match resultsTbody w with
      | Some rows =>
          if has_text props
          then (set_tbody w (rows ++ [surfaced_row props rows]), Normal tt)
          else (log (set_tbody w (rows ++ [surfaced_row props rows]))
                    (ConsoleWarn line TypeError), Normal tt)
      | None => (w, Normal tt)
      end
  | None =>
      if brace_delimited line then
        match JSON_parse line with
        | Throw e => (log w (ConsoleWarn line e), Normal tt)
        | Normal _ => (w, Normal tt)
        end
      else (w, Normal tt)
  end.
Proof.
  unfold accepted.
  destruct (brace_delimited line) eqn:Hb; [|now apply tryParse_filtered].
  unfold decoded. destruct (JSON_parse line) as [v|e] eqn:Hp.
  - assert (Hv : exists props, v = JObject props).
    { unfold brace_delimited in Hb. apply andb_true_iff in Hb. destruct Hb as [Hs _].
      apply startsWith_brace in Hs. destruct Hs as [r ->].
      exact (JSON_parse_brace _ _ Hp). }
    destruct Hv as [props ->]. rewrite (tryParse_object _ _ w Hb Hp).
    now destruct (_ && _)%bool.
  - now apply tryParse_syntax_error.
Qed.

Lemma accepted_trimmed raw : accepted (trim raw) = decoded (trim raw).
Proof.
  unfold accepted.
  destruct (brace_delimited (trim raw)) eqn:Hb; [reflexivity|].
  unfold decoded. destruct (JSON_parse (trim raw)) as [v|e] eqn:Hp; [|reflexivity].
  destruct v as [| |b|n|str|l|props]; try reflexivity.
  rewrite (trimmed_object_brace_delimited _ _ Hp) in Hb. discriminate.
Qed.

(** The decode step leaves the error container and the loading state
    alone, and only ever appends to the console. *)
Lemma tryParse_frame line w :
  let w' := fst (tryParseAndDisplay line w) in
  errorContainer w' = errorContainer w /\ loading w' = loading w /\
  resultsShown w' = resultsShown w /\
  exists entries, console w' = console w ++ entries.
Proof.
  rewrite tryParse_effect.
  destruct (accepted line) as [props|].
  - destruct (resultsTbody w); [destruct (has_text props)|]; simpl; repeat split.
    + exists (@nil ConsoleEntry); now rewrite app_nil_r.
    + eexists; reflexivity.
    + exists (@nil ConsoleEntry); now rewrite app_nil_r.
  - destruct (brace_delimited line); [destruct (JSON_parse line)|];
      simpl; repeat split.
    + exists (@nil ConsoleEntry); now rewrite app_nil_r.
    + eexists; reflexivity.
    + exists (@nil ConsoleEntry); now rewrite app_nil_r.
Qed.

End DecodeFacts.

(** ** Facts about the streaming loop *)

Module StreamFacts.
Import StringFacts DecodeFacts.

#[local] Arguments N.eqb : simpl never.

Lemma handle_line_normal raw w : snd (handle_line raw w) = Normal tt.
Proof.
  unfold handle_line. destruct (truthy_string (trim raw)).
  - apply tryParse_normal.
  - reflexivity.
Qed.

(** The loop exits at once on a buffer without newline. *)
Lemma drain_no_newline buffer w :
  cut buffer = None -> drain buffer w = (w, Normal buffer).
Proof.
  intros H. rewrite drain_equation_1.
  destruct (Z.eq_dec (indexOf buffer newline) (-1)) as [e|n].
  - reflexivity.
  - exfalso. apply n. now apply indexOf_cut_none.
Qed.

(** One iteration: the first line is handled, the loop goes on with the
    rest. *)
Lemma drain_line buffer l rest w :
  cut buffer = Some (l, rest) ->
  drain buffer w = drain rest (fst (handle_line l w)).
Proof.
  intros H. rewrite drain_equation_1.
  pose proof (indexOf_cut_some _ _ _ H) as Hi.
  destruct (Z.eq_dec (indexOf buffer newline) (-1)) as [e|n]; [lia|].
  rewrite drain_clause_1_equation_2. cbv zeta. rewrite Hi.
  destruct (cut_some _ _ _ H) as [Hs _].
  rewrite (substring_line _ _ _ Hs), (substring_rest _ _ _ Hs).
  pose proof (handle_line_normal l w) as Hn. unfold handle_line in *.
  destruct ((if truthy_string (trim l) then tryParseAndDisplay (trim l) else ret tt) w)
    as [w' c].
  simpl in Hn. subst c. reflexivity.
Qed.

(** The loop ends, normally, with a buffer that holds no newline. *)
Lemma drain_result buffer :
  forall w, exists w' buffer',
    drain buffer w = (w', Normal buffer') /\ cut buffer' = None.
Proof.
  remember (length buffer) as n eqn:Hn. revert buffer Hn.
  induction n as [n IH] using lt_wf_ind. intros buffer Hn w.
  destruct (cut buffer) as [[l rest]|] eqn:E.
  - rewrite (drain_line _ _ _ _ E).
    apply (IH (length rest)); [|reflexivity].
    subst n. exact (cut_length _ _ _ E).
  - exists w, buffer. split; [now apply drain_no_newline | exact E].
Qed.

(** Text that arrives later can as well be appended before the loop
    runs. *)
Lemma drain_app buffer text :
  forall w, drain (buffer ++ text) w =
            (buffer' <- drain buffer ;; drain (buffer' ++ text)) w.
Proof.
  remember (length buffer) as n eqn:Hn. revert buffer Hn.
  induction n as [n IH] using lt_wf_ind. intros buffer Hn w.
  destruct (cut buffer) as [[l rest]|] eqn:E.
  - rewrite (drain_line _ _ _ _ (cut_app _ text _ _ E)).
    unfold bind. rewrite (drain_line _ _ _ _ E).
    rewrite (IH (length rest)) with (buffer := rest); [reflexivity| |reflexivity].
    subst n. exact (cut_length _ _ _ E).
  - unfold bind. now rewrite (drain_no_newline _ _ E).
Qed.

(** The [for await] loop over chunks that all carry text does what the
    inner loop does on their concatenation. *)
Lemma for_await_concat texts :
  forall buffer w,
    cut buffer = None ->
    for_await (map Some texts) None buffer w = drain (buffer ++ concat texts) w.
Proof.
  induction texts as [|t texts IH]; intros buffer w Hb.
  - simpl. rewrite app_nil_r. symmetry. now apply drain_no_newline.
  - simpl for_await. simpl concat. rewrite app_assoc, drain_app.
    unfold bind, append_text.
    destruct (drain_result (buffer ++ t) w) as [w' [b' [Hd Hc]]].
    rewrite Hd. now apply IH.
Qed.

(** The [for await] loop does on any chunks what the inner loop does on
    the text they add up to. *)
Lemma for_await_streamed cs :
  forall buffer w,
    cut buffer = None ->
    for_await cs None buffer w = drain (buffer ++ streamed_text cs) w.
Proof.
  induction cs as [|text cs IH]; intros buffer w Hb.
  - unfold streamed_text. simpl. rewrite app_nil_r. symmetry.
    now apply drain_no_newline.
  - simpl for_await. unfold streamed_text. simpl map. simpl concat.
    rewrite app_assoc, drain_app. unfold bind.
    change (append_text buffer text) with (buffer ++ chunk_text text).
    destruct (drain_result (buffer ++ chunk_text text) w) as [w' [b' [Hd Hc]]].
    rewrite Hd. fold (streamed_text cs). now apply IH.
Qed.

Lemma decode_stream_concat texts w :
  decode_stream (text_stream texts) w =
  (buffer <- drain (concat texts) ;; flush buffer) w.
Proof.
  unfold decode_stream, text_stream, bind. simpl chunks. simpl failure.
  rewrite for_await_concat by reflexivity. reflexivity.
Qed.

(** A text that is empty or ends with a newline leaves an empty buffer. *)
Lemma drain_complete_lines body w :
  body = [] \/ endsWith body newline = true ->
  exists w', drain body w = (w', Normal []).
Proof.
  intros [->|H].
  - exists w. now apply drain_no_newline.
  - assert (Hb : exists pre, body = pre ++ newline).
    { unfold endsWith in H. simpl in H.
      destruct (rev body) as [|c r] eqn:E; [discriminate|].
      simpl in H. rewrite andb_true_r in H. apply N.eqb_eq in H. subst c.
      exists (rev r). apply (f_equal (@rev _)) in E.
      rewrite rev_involutive in E. exact E. }
    destruct Hb as [pre ->]. rewrite drain_app. unfold bind.
    destruct (drain_result pre w) as [w1 [b1 [Hd Hc]]]. rewrite Hd.
    rewrite (drain_line _ _ _ _ (cut_line _ (proj1 (cut_none_iff _) Hc))).
    eexists. now apply drain_no_newline.
Qed.

(** The [for await] loop over a stream that ends normally ends normally,
    with a buffer that holds no newline. *)
Lemma for_await_result chunks :
  forall buffer w,
    cut buffer = None ->
    exists w' buffer',
      for_await chunks None buffer w = (w', Normal buffer') /\ cut buffer' = None.
Proof.
  induction chunks as [|text chunks IH]; intros buffer w Hb.
  - exists w, buffer. split; [reflexivity | exact Hb].
  - simpl. unfold bind.
    destruct (drain_result (append_text buffer text) w) as [w1 [b1 [Hd Hc]]].
    rewrite Hd. now apply IH.
Qed.

Lemma for_await_result_normal chunks buffer w :
  exists w' buffer', for_await chunks None buffer w = (w', Normal buffer').
Proof.
  destruct chunks as [|text chunks].
  - exists w, buffer. reflexivity.
  - simpl. unfold bind.
    destruct (drain_result (append_text buffer text) w) as [w1 [b1 [Hd Hc]]].
    rewrite Hd.
    destruct (for_await_result chunks b1 w1 Hc) as [w' [b' [H _]]]. eauto.
Qed.

(** Decoding never writes the error container. *)
Lemma handle_line_frame raw w :
  errorContainer (fst (handle_line raw w)) = errorContainer w.
Proof.
  unfold handle_line. destruct (truthy_string (trim raw)); [|reflexivity].
  apply (tryParse_frame (trim raw) w).
Qed.

Lemma drain_frame buffer :
  forall w, errorContainer (fst (drain buffer w)) = errorContainer w.
Proof.
  remember (length buffer) as n eqn:Hn. revert buffer Hn.
  induction n as [n IH] using lt_wf_ind. intros buffer Hn w.
  destruct (cut buffer) as [[l rest]|] eqn:E.
  - rewrite (drain_line _ _ _ _ E).
    rewrite (IH (length rest)) with (buffer := rest);
      [apply handle_line_frame | | reflexivity].
    subst n. exact (cut_length _ _ _ E).
  - now rewrite (drain_no_newline _ _ E).
Qed.

Lemma for_await_frame chunks :
  forall buffer w,
    errorContainer (fst (for_await chunks None buffer w)) = errorContainer w.
Proof.
  induction chunks as [|text chunks IH]; intros buffer w; [reflexivity|].
  simpl. unfold bind.
  destruct (drain_result (append_text buffer text) w) as [w1 [b1 [Hd _]]].
  pose proof (drain_frame (append_text buffer text) w) as Hf.
  rewrite Hd in *. simpl in Hf. now rewrite IH.
Qed.

(** A stream that ends normally is decoded to the end: no line, however
    malformed, aborts it or shows an error to the user. *)
Lemma decode_stream_frame cs w :
  snd (decode_stream (mkStream cs None) w) = Normal tt /\
  errorContainer (fst (decode_stream (mkStream cs None) w)) = errorContainer w.
Proof.
  unfold decode_stream, bind. simpl chunks. simpl failure.
  pose proof (for_await_frame cs [] w) as Hf.
  destruct (for_await_result_normal cs [] w) as [w1 [buffer Hd]].
  rewrite Hd in *. simpl in Hf. destruct (truthy_string (trim buffer)).
  - split; [apply tryParse_normal|].
    rewrite <- Hf. apply (tryParse_frame (trim buffer) w1).
  - split; [reflexivity | exact Hf].
Qed.

End StreamFacts.

(** ** The decode step: [tryParseAndDisplay] *)

Section DecodeStep.
Import DecodeFacts.

Lemma app_one_neq {A} (l : list A) (x : A) : l ++ [x] <> l.
Proof.
  intros H. apply (f_equal (@length A)) in H. rewrite length_app in H.
  simpl in H. lia.
Qed.

(** C1.  For every candidate line handed to the decode step, that is, for
    every trimmed text, and every page with a results table: a row is
    added to the table if and only if the line parses as a JSON object
    whose [term] and [category] fields are both non-empty; the table then
    gains exactly one row for that record and otherwise stays as it was;
    that row is the complete row of the record, its seven fields in
    column order, when each field has a text, and the row left unfinished
    at the first field without a text otherwise; the error container is
    never touched; and the line with a [term] but no [category] adds no
    row. *)
Theorem decode_surfaces_valid_records_only :
  forall (raw : jsstring) (w : World) (rows : list Row),
    resultsTbody w = Some rows ->
    ((exists row,
         resultsTbody (fst (tryParseAndDisplay (trim raw) w)) = Some (rows ++ [row]))
     <->
     (exists props,
         JSON_parse (trim raw) = Normal (JObject props) /\
         nonempty_field props (js "term") = true /\
         nonempty_field props (js "category") = true))
    /\ resultsTbody (fst (tryParseAndDisplay (trim raw) w)) =
       Some (rows ++ match decoded (trim raw) with
                     | Some props => [surfaced_row props rows]
                     | None => []
                     end)
    /\ (forall props,
           decoded (trim raw) = Some props ->
           has_text props = true ->
           resultsTbody (fst (tryParseAndDisplay (trim raw) w)) =
           Some (rows ++ [record_row props rows]))
    /\ errorContainer (fst (tryParseAndDisplay (trim raw) w)) = errorContainer w
    /\ resultsTbody (fst (tryParseAndDisplay line_without_category w)) = Some rows.
Proof.
  intros raw w rows Hrows.
  assert (Htbody : resultsTbody (fst (tryParseAndDisplay (trim raw) w)) =
                   Some (rows ++ match decoded (trim raw) with
                                 | Some props => [surfaced_row props rows]
                                 | None => []
                                 end)).
  { rewrite tryParse_effect, accepted_trimmed, Hrows.
    destruct (decoded (trim raw)) as [props|].
    - now destruct (has_text props).
    - rewrite app_nil_r.
      destruct (brace_delimited (trim raw)); [destruct (JSON_parse (trim raw))|];
        exact Hrows. }
  split; [|split; [exact Htbody|split; [|split]]].
  - rewrite Htbody. unfold decoded. split.
    + intros [row Hrow].
      destruct (JSON_parse (trim raw)) as [[| |b|n|str|l|props]|e];
        try (rewrite app_nil_r in Hrow; inversion Hrow as [Heq];
             symmetry in Heq; now apply app_one_neq in Heq).
      exists props. split; [reflexivity|].
      destruct (nonempty_field props (js "term")),
               (nonempty_field props (js "category")); simpl in Hrow;
        try (split; reflexivity);
        rewrite app_nil_r in Hrow; inversion Hrow as [Heq];
        symmetry in Heq; now apply app_one_neq in Heq.
    + intros [props [Hp [Ht Hc]]]. rewrite Hp, Ht, Hc. simpl. eauto.
  - intros props Hdec Htext.
    now rewrite Htbody, Hdec, (surfaced_row_complete props rows Htext).
  - apply (tryParse_frame (trim raw) w).
  - rewrite tryParse_effect.
    change (accepted line_without_category)
      with (@None (list (jsstring * JsValue))).
    change (brace_delimited line_without_category) with true.
    destruct (JSON_parse line_without_category) eqn:Hp; [exact Hrows|].
    discriminate Hp.
Qed.

Lemma decode_surfaces_valid_records_only_witness :
  resultsTbody page0 = Some [] /\
  resultsTbody (fst (tryParseAndDisplay (trim padded_record_line) page0)) =
  Some [mkRow [JString (js "plumber jobs"); JString (js "Negative");
               JUndefined; JUndefined; JUndefined; JUndefined; JUndefined]
              (Some 20%N)].
Proof.
  split; [reflexivity|].
  exact (proj1 (proj2
           (decode_surfaces_valid_records_only padded_record_line page0 []
              eq_refl))).
Defined.

(** For a field that holds a string, not empty means what it says. *)
Remark nonempty_field_string props key s :
  lookup key props = Some (JString s) ->
  nonempty_field props key = true <-> s <> [].
Proof.
  intros H. unfold nonempty_field. rewrite H.
  destruct s; simpl; split; congruence.
Qed.

(** A record whose third field has no text leaves a row of three cells,
    the third one empty, without animation delay, and one warning. *)
Example unprintable_field_leaves_partial_row :
  tryParseAndDisplay unprintable_line page0 =
  (mkWorld (Some [mkRow [JString (js "x"); JString (js "y"); JString []] None])
           true [ConsoleWarn unprintable_line TypeError] None true,
   Normal tt).
Proof. vm_compute. reflexivity. Qed.

(** The complete record line gives exactly one row, with its seven cells
    in column order. *)
Example full_record_line_gives_one_row :
  tryParseAndDisplay full_record_line page0 =
  (set_tbody page0
     [mkRow [JString (js "plumber jobs"); JString (js "Negative");
             JString (js "General"); JString []; JString (js "jobs");
             JString []; JString []]
            (Some 20%N)],
   Normal tt).
Proof. vm_compute. reflexivity. Qed.

(** C4, as the code has it.  The decode step never raises.  A line that
    does not pass the brace filter is discarded without a trace: the page
    stays as it was, and nothing is logged.  A line that passes the brace
    filter and that [JSON.parse] rejects is discarded, the table stays as
    it was, and the console gains exactly one warning.  Running the step
    again on a line that added no row adds no row again and does not
    raise either.  The line cut before its closing brace, which
    [JSON.parse] would reject, is of the first kind: dropped and not
    logged. *)
Theorem decode_never_raises :
  forall (line : jsstring) (w : World),
    snd (tryParseAndDisplay line w) = Normal tt
    /\ (brace_delimited line = false -> fst (tryParseAndDisplay line w) = w)
    /\ (forall e,
           brace_delimited line = true -> JSON_parse line = Throw e ->
           fst (tryParseAndDisplay line w) = log w (ConsoleWarn line e) /\
           resultsTbody (fst (tryParseAndDisplay line w)) = resultsTbody w /\
           console (fst (tryParseAndDisplay line w)) =
           console w ++ [ConsoleWarn line e])
    /\ (resultsTbody (fst (tryParseAndDisplay line w)) = resultsTbody w ->
        forall w1,
          fst (tryParseAndDisplay line w) = w1 ->
          snd (tryParseAndDisplay line w1) = Normal tt /\
          resultsTbody (fst (tryParseAndDisplay line w1)) = resultsTbody w1)
    /\ (JSON_parse unclosed_line = Throw SyntaxError /\
        tryParseAndDisplay unclosed_line w = (w, Normal tt)).
Proof.
  intros line w. split; [apply tryParse_normal|]. split; [|split; [|split]].
  - intros Hb. now rewrite (tryParse_filtered line w Hb).
  - intros e Hb Hp. now rewrite (tryParse_syntax_error _ _ w Hb Hp).
  - intros Hsame w1 Hw1. split; [apply tryParse_normal|].
    subst w1. revert Hsame. rewrite !tryParse_effect.
    destruct (accepted line) as [props|].
    + destruct (resultsTbody w) as [rows|] eqn:Hrows.
      * intros Heq. exfalso.
        assert (Heq' : Some (rows ++ [surfaced_row props rows]) = Some rows)
          by (destruct (has_text props); exact Heq).
        inversion Heq' as [Heq'']. now apply app_one_neq in Heq''.
      * cbn [fst]. rewrite Hrows. intros _. exact Hrows.
    + intros _. destruct (brace_delimited line); [|reflexivity].
      destruct (JSON_parse line); reflexivity.
  - split; [vm_compute; reflexivity | now apply tryParse_filtered].
Qed.

Lemma decode_never_raises_witness :
  brace_delimited malformed_line = true /\
  JSON_parse malformed_line = Throw SyntaxError /\
  console (fst (tryParseAndDisplay malformed_line page0)) =
    console page0 ++ [ConsoleWarn malformed_line SyntaxError] /\
  resultsTbody (fst (tryParseAndDisplay malformed_line page0)) = resultsTbody page0 /\
  snd (tryParseAndDisplay malformed_line
         (fst (tryParseAndDisplay malformed_line page0))) = Normal tt /\
  brace_delimited unclosed_line = false /\
  fst (tryParseAndDisplay unclosed_line page0) = page0.
Proof.
  split; [reflexivity|]. split; [reflexivity|].
  pose proof (decode_never_raises malformed_line page0) as [_ [_ [Hlog [Hagain _]]]].
  split; [exact (proj2 (proj2 (Hlog SyntaxError eq_refl eq_refl)))|].
  split; [reflexivity|].
  split; [exact (proj1 (Hagain eq_refl _ eq_refl))|].
  split; [reflexivity|].
  exact (proj1 (proj2 (decode_never_raises unclosed_line page0)) eq_refl).
Defined.

(** C4 as the specification words it fails: the line cut before its
    closing brace fails to decode, and the decode step drops it without
    logging anything. *)
Lemma unclosed_line_is_dropped_without_log :
  JSON_parse unclosed_line = Throw SyntaxError /\
  ~ decode_failure_is_logged unclosed_line page0.
Proof.
  split; [vm_compute; reflexivity|].
  intros H. destruct (H SyntaxError) as [_ [entry He]]; [vm_compute; reflexivity|].
  vm_compute in He. discriminate He.
Qed.

(** C9.  A line that does not both start with a left brace and end with
    a right brace changes nothing at all: no row and no console entry,
    whatever [JSON.parse] would make of it.  A brace-delimited line that
    fails to decode leaves exactly one warning in the console. *)
Theorem brace_filter_is_silent :
  forall (line : jsstring) (w : World),
    (brace_delimited line = false ->
     tryParseAndDisplay line w = (w, Normal tt))
    /\ (forall e,
           brace_delimited line = true -> JSON_parse line = Throw e ->
           tryParseAndDisplay line w = (log w (ConsoleWarn line e), Normal tt)
           /\ console (log w (ConsoleWarn line e)) = console w ++ [ConsoleWarn line e]
           /\ resultsTbody (log w (ConsoleWarn line e)) = resultsTbody w).
Proof.
  intros line w. split.
  - apply tryParse_filtered.
  - intros e Hb Hp. split; [now apply tryParse_syntax_error|]. split; reflexivity.
Qed.

Lemma brace_filter_is_silent_witness :
  (truthy_string (trim unclosed_line) = true /\
   brace_delimited (trim unclosed_line) = false /\
   JSON_parse (trim unclosed_line) = Throw SyntaxError /\
   tryParseAndDisplay (trim unclosed_line) page0 = (page0, Normal tt))
  /\ (brace_delimited malformed_line = true /\
      tryParseAndDisplay malformed_line page0 =
      (log page0 (ConsoleWarn malformed_line SyntaxError), Normal tt)).
Proof.
  split.
  - split; [reflexivity|]. split; [reflexivity|]. split; [reflexivity|].
    exact (proj1 (brace_filter_is_silent (trim unclosed_line) page0) eq_refl).
  - split; [reflexivity|].
    exact (proj1 (proj2 (brace_filter_is_silent malformed_line page0)
                    SyntaxError eq_refl eq_refl)).
Defined.

End DecodeStep.

(** ** The streaming loop of [handleAnalyzeClick] *)

Section StreamingLoop.
Import StringFacts DecodeFacts StreamFacts.

(** C10.  Each extraction of a line strictly shortens the buffer, so the
    inner loop ends for every buffer; it ends normally, with a buffer
    that holds no newline; and so does the buffer after any number of
    chunks have been consumed. *)
Theorem inner_loop_terminates_without_newline :
  forall (buffer : jsstring) (w : World),
    (indexOf buffer newline = (-1)%Z \/
     length (substring buffer (indexOf buffer newline + 1) None) < length buffer)
    /\ (exists w' buffer',
           drain buffer w = (w', Normal buffer') /\
           indexOf buffer' newline = (-1)%Z /\ ~ In LF buffer')
    /\ (forall chunks : list (option jsstring),
           exists w' buffer',
             for_await chunks None [] w = (w', Normal buffer') /\
             indexOf buffer' newline = (-1)%Z /\ ~ In LF buffer').
Proof.
  intros buffer w. split; [|split].
  - destruct (cut buffer) as [[l rest]|] eqn:E.
    + right. rewrite (indexOf_cut_some _ _ _ E).
      destruct (cut_some _ _ _ E) as [Hs _].
      rewrite (substring_rest _ _ _ Hs). exact (cut_length _ _ _ E).
    + left. now apply indexOf_cut_none.
  - destruct (drain_result buffer w) as [w' [b' [Hd Hc]]].
    exists w', b'. split; [exact Hd|]. split.
    + now apply indexOf_cut_none.
    + now apply cut_none_iff.
  - intros chunks.
    destruct (for_await_result chunks [] w eq_refl) as [w' [b' [Hd Hc]]].
    exists w', b'. split; [exact Hd|]. split.
    + now apply indexOf_cut_none.
    + now apply cut_none_iff.
Qed.

(** The loop on a buffer of two lines, the second unfinished: the first
    line is no record and is dropped, the second stays in the buffer. *)
Example inner_loop_keeps_unfinished_line :
  drain buffer_with_newline page0 = (page0, Normal (js "cd")).
Proof. reflexivity. Qed.

(** Three record lines in one chunk give three rows in the order of the
    lines; a blank line gives no row and no warning. *)
Example three_lines_in_one_chunk :
  let text := record_x ++ newline ++ js "   " ++ newline ++ record_y ++ newline
              ++ record_x ++ newline in
  exists r1 r2 r3,
    decode_stream (text_stream [text]) page0 =
    (set_tbody page0 [r1; r2; r3], Normal tt) /\
    map cells [r1; r2; r3] =
    [[JString (js "x"); JString (js "Negative");
      JUndefined; JUndefined; JUndefined; JUndefined; JUndefined];
     [JString (js "y"); JString (js "Positive");
      JUndefined; JUndefined; JUndefined; JUndefined; JUndefined];
     [JString (js "x"); JString (js "Negative");
      JUndefined; JUndefined; JUndefined; JUndefined; JUndefined]].
Proof. vm_compute. do 3 eexists. split; reflexivity. Qed.

(** C8.  However a text is partitioned into chunks, mid-line and
    mid-object splits included, the streaming decode leaves the page as
    it does when the whole text arrives as a single chunk. *)
Theorem chunk_boundaries_do_not_matter :
  forall (texts : list jsstring) (w : World),
    decode_stream (text_stream texts) w =
    decode_stream (text_stream [concat texts]) w.
Proof.
  intros texts w. rewrite !decode_stream_concat.
  simpl concat. now rewrite app_nil_r.
Qed.

(** C2.  Two ways of splitting the same text into chunks, each with
    every split point immediately after a newline, leave the same page:
    the same rows in the same order. *)
Theorem newline_aligned_chunkings_agree :
  forall (text : jsstring) (texts1 texts2 : list jsstring) (w : World),
    concat texts1 = text ->
    concat texts2 = text ->
    split_after_newlines texts1 = true ->
    split_after_newlines texts2 = true ->
    decode_stream (text_stream texts1) w = decode_stream (text_stream texts2) w
    /\ resultsTbody (fst (decode_stream (text_stream texts1) w)) =
       resultsTbody (fst (decode_stream (text_stream texts2) w)).
Proof.
  intros text texts1 texts2 w H1 H2 _ _.
  assert (H : decode_stream (text_stream texts1) w =
              decode_stream (text_stream texts2) w).
  { rewrite !decode_stream_concat. now rewrite H1, H2. }
  split; [exact H | now rewrite H].
Qed.

Lemma newline_aligned_chunkings_agree_witness :
  concat by_line = two_lines ++ record_x /\
  concat in_two = two_lines ++ record_x /\
  split_after_newlines by_line = true /\
  split_after_newlines in_two = true /\
  resultsTbody (fst (decode_stream (text_stream by_line) page0)) =
  resultsTbody (fst (decode_stream (text_stream in_two) page0)).
Proof.
  split; [reflexivity|]. split; [reflexivity|].
  split; [reflexivity|]. split; [reflexivity|].
  exact (proj2 (newline_aligned_chunkings_agree (two_lines ++ record_x)
                  by_line in_two page0 eq_refl eq_refl eq_refl eq_refl)).
Defined.



(** The rows of that run: the two complete lines, then the flushed one. *)
Example final_line_is_last_row :
  option_map (map cells) (resultsTbody (fst (decode_stream (text_stream in_two) page0))) =
  Some [[JString (js "x"); JString (js "Negative");
         JUndefined; JUndefined; JUndefined; JUndefined; JUndefined];
        [JString (js "y"); JString (js "Positive");
         JUndefined; JUndefined; JUndefined; JUndefined; JUndefined];
        [JString (js "x"); JString (js "Negative");
         JUndefined; JUndefined; JUndefined; JUndefined; JUndefined]].
Proof. vm_compute. reflexivity. Qed.

End StreamingLoop.

(** ** The context resolver and the context step *)

Section ContextResolver.
Import JsonFacts DecodeFacts.

Lemma or_else_field props key d :
  or_else (field props key) d =
  if nonempty_field props key then field props key else d.
Proof.
  unfold or_else, field, nonempty_field.
  destruct (lookup key props) as [v|]; [|reflexivity].
  destruct v as [| |b|n|s|l|o]; simpl; try reflexivity.
  - now destruct b.
  - now destruct s.
Qed.

(** What [getBusinessContext] does with a response that has a text. *)
Lemma getBusinessContext_text ai websiteUrl text :
  ai websiteUrl = ApiReturns (Some text) ->
  getBusinessContext ai websiteUrl =
  match JSON_parse (strip_fences text) with
  | Throw e => Throw e
  | Normal JNull => Throw TypeError
  | Normal parsed =>
      Normal (mkContext (defaulted parsed (js "location") (JString []))
                        (defaulted parsed (js "competitors") (JArray []))
                        (defaulted parsed (js "services") (JArray [])))
  end.
Proof.
  intros Hai. unfold getBusinessContext. rewrite Hai.
  fold (strip_fences text).
  destruct (JSON_parse (strip_fences text)) as [parsed|e] eqn:Hp; [|reflexivity].
  pose proof (JSON_parse_defined _ _ Hp) as Hdef.
  destruct parsed as [| |b|n|s|l|props]; try reflexivity.
  - contradiction.
  - rewrite !Get_object, !or_else_field. reflexivity.
Qed.

(** C5, as the code has it.  [getBusinessContext] fails exactly when the
    API call throws, the response has no text, the text with its fences
    stripped is no JSON, or it is the JSON text [null]; the error is the
    one thrown.  Whenever the stripped text parses to anything but
    [null], the call returns a context in which each of [location],
    [competitors] and [services] is the parsed value when that is present
    and not empty, and the empty string, respectively the empty array,
    otherwise; the shape of the parsed value is not checked. *)
Theorem context_resolver_failures :
  forall (ai : jsstring -> ApiResponse) (websiteUrl : jsstring),
    (forall e,
        getBusinessContext ai websiteUrl = Throw e <->
        (ai websiteUrl = ApiThrows e
         \/ (ai websiteUrl = ApiReturns None /\ e = TypeError)
         \/ (exists text,
                ai websiteUrl = ApiReturns (Some text) /\
                (JSON_parse (strip_fences text) = Throw e
                 \/ (JSON_parse (strip_fences text) = Normal JNull /\
                     e = TypeError)))))
    /\ (forall text parsed,
           ai websiteUrl = ApiReturns (Some text) ->
           JSON_parse (strip_fences text) = Normal parsed ->
           parsed <> JNull ->
           getBusinessContext ai websiteUrl =
           Normal (mkContext (defaulted parsed (js "location") (JString []))
                             (defaulted parsed (js "competitors") (JArray []))
                             (defaulted parsed (js "services") (JArray [])))).
Proof.
  intros ai websiteUrl. split.
  - intros e. destruct (ai websiteUrl) as [e'|[text|]] eqn:Hai.
    + unfold getBusinessContext. rewrite Hai. split.
      * intros H. inversion H. now left.
      * intros [H|[[H _]|[text [H _]]]]; try discriminate H.
        now inversion H.
    + rewrite (getBusinessContext_text _ _ _ Hai). split.
      * intros H. right. right. exists text. split; [reflexivity|].
        destruct (JSON_parse (strip_fences text)) as [parsed|e'] eqn:Hp.
        -- destruct parsed; try discriminate H. inversion H. now right.
        -- inversion H. now left.
      * intros [H|[[H _]|[text' [H Hp]]]]; try discriminate H.
        inversion H; subst text'.
        destruct Hp as [Hp|[Hp ->]]; now rewrite Hp.
    + unfold getBusinessContext. rewrite Hai. split.
      * intros H. inversion H. right. left. now split.
      * intros [H|[[_ ->]|[text [H _]]]]; try discriminate H. reflexivity.
  - intros text parsed Hai Hp Hnull.
    rewrite (getBusinessContext_text _ _ _ Hai), Hp.
    destruct parsed; try reflexivity. contradiction.
Qed.

Lemma context_resolver_failures_witness :
  JSON_parse (strip_fences fenced_response) <> Normal JNull /\
  getBusinessContext (fun _ => ApiReturns (Some fenced_response)) site =
  Normal (mkContext (JString (js "San Diego, CA"))
                    (JArray [JString (js "Acme")])
                    (JArray [JString (js "drain cleaning")])).
Proof.
  split; [discriminate|].
  refine (proj2 (context_resolver_failures
                   (fun _ => ApiReturns (Some fenced_response)) site)
            fenced_response _ eq_refl eq_refl _).
  discriminate.
Defined.

(** C5 as the specification words it fails.  A response that is an empty
    array is not of the expected shape, yet the call returns the default
    context; and the response [null] parses, yet the call raises. *)
Lemma context_resolver_accepts_any_shape :
  ~ fails_exactly_on_unexpected_shape (fun _ => ApiReturns (Some array_response)) site
  /\ ~ returns_whenever_parsing_succeeds (fun _ => ApiReturns (Some null_response)) site.
Proof.
  split.
  - unfold fails_exactly_on_unexpected_shape. intros [_ H].
    destruct (H eq_refl) as [e He]. discriminate He.
  - unfold returns_whenever_parsing_succeeds. intros H.
    destruct (H null_response JNull eq_refl eq_refl) as [context Hc].
    discriminate Hc.
Qed.

(** C6.  When a manual location is supplied, the context of the run is
    the resolved one (inferred from the website, or the empty default
    when no URL was given) with its location replaced by the manual
    location; competitors and services are those of the resolved
    context. *)
Theorem manual_location_overrides_location_only :
  forall (ai : jsstring -> ApiResponse) (websiteUrl manualLocation : jsstring)
         (resolved : BusinessContext),
    truthy_string manualLocation = true ->
    (if truthy_string websiteUrl then getBusinessContext ai websiteUrl
     else Normal (mkContext (JString []) (JArray []) (JArray []))) = Normal resolved ->
    analysis_context ai websiteUrl manualLocation =
    Normal (mkContext (JString manualLocation)
                      (competitors resolved) (services resolved)).
Proof.
  intros ai websiteUrl manualLocation resolved Hmanual Hresolved.
  unfold analysis_context. rewrite Hresolved, Hmanual. reflexivity.
Qed.

Lemma manual_location_overrides_location_only_witness :
  truthy_string manual_location = true /\
  analysis_context (fun _ => ApiReturns (Some fenced_response)) site manual_location =
  Normal (mkContext (JString manual_location)
                    (JArray [JString (js "Acme")])
                    (JArray [JString (js "drain cleaning")])).
Proof.
  split; [reflexivity|].
  exact (manual_location_overrides_location_only
           (fun _ => ApiReturns (Some fenced_response)) site manual_location
           (mkContext (JString (js "San Diego, CA"))
                      (JArray [JString (js "Acme")])
                      (JArray [JString (js "drain cleaning")]))
           eq_refl eq_refl).
Defined.

End ContextResolver.

(** ** The CSV export: [handleCopyCsvClick] *)

Module QuoteFacts.

#[local] Arguments N.eqb : simpl never.

Lemma escaped_plain th :
  no_quote th = true -> replaceAll th 34%N (quote ++ quote) = th.
Proof.
  unfold no_quote, replaceAll. intros H. apply negb_true_iff in H.
  induction th as [|c r IH]; [reflexivity|].
  simpl in H. apply orb_false_iff in H. destruct H as [Hc Hr].
  cbn [flat_map]. rewrite N.eqb_sym, Hc. cbn [app]. now rewrite IH.
Qed.

Lemma escaped_length th : length th <= length (replaceAll th 34%N (quote ++ quote)).
Proof.
  unfold replaceAll. induction th as [|c r IH]; [apply le_n|].
  cbn [flat_map]. rewrite length_app.
  destruct (N.eqb c 34); simpl in *; lia.
Qed.

Lemma escaped_fixed th :
  replaceAll th 34%N (quote ++ quote) = th -> no_quote th = true.
Proof.
  unfold no_quote. intros H. apply negb_true_iff. revert H.
  induction th as [|c r IH]; intros H; [reflexivity|].
  pose proof (escaped_length r) as Hl.
  unfold replaceAll in *. cbn [flat_map] in H. cbn [existsb].
  rewrite N.eqb_sym. destruct (N.eqb c 34).
  - exfalso. apply (f_equal (@length code_unit)) in H.
    rewrite length_app in H. change (length (quote ++ quote)) with 2 in H.
    cbn [length] in H. lia.
  - cbn [orb]. apply IH. cbn [app] in H. injection H as H. exact H.
Qed.

End QuoteFacts.

Section CsvExport.
Import QuoteFacts.

#[local] Arguments N.eqb : simpl never.

Lemma undouble_step a b r :
  undouble (a :: b :: r) =
  if (N.eqb a 34 && N.eqb b 34)%bool then 34%N :: undouble r
  else a :: undouble (b :: r).
Proof. reflexivity. Qed.

Lemma undouble_doubled td : undouble (replaceAll td 34%N (quote ++ quote)) = td.
Proof.
  unfold replaceAll. change (quote ++ quote) with [34%N; 34%N].
  induction td as [|c r IH]; [reflexivity|].
  cbn [flat_map].
  destruct (N.eqb_spec c 34) as [->|Hc].
  - cbn [app]. rewrite undouble_step. cbn [N.eqb Pos.eqb andb]. now rewrite IH.
  - cbn [app]. apply N.eqb_neq in Hc.
    match goal with
    | |- context [flat_map ?f r] => destruct (flat_map f r) as [|b t]
    end.
    + rewrite <- IH. reflexivity.
    + rewrite undouble_step, Hc. cbn [andb]. now rewrite IH.
Qed.

(** C7, as the code has it.  The export writes the header line followed
    by one line per body row, the cells of a line separated by commas.
    Every body cell is written between double quotes with each double
    quote of its text doubled, so that the text reads back from what lies
    between the outer quotes.  Every header cell is written between double
    quotes with its text as it is: that is what a body cell would give
    exactly when the header text holds no double quote.  For the header
    [term, category] and the one record whose term is [a], a double
    quote, [b] and whose category is [c], the data row is the quoted term
    with its inner quote doubled, a comma, and the quoted category. *)
Theorem csv_export_quotes_and_doubles :
  (forall t : ResultsTable,
      handleCopyCsvClick (Some t) =
      let csvContent :=
        join newline (join comma (map header_cell (thead t))
                      :: map (fun row => join comma (map data_cell row)) (tbody t)) in
      if truthy_string csvContent then Some csvContent else None)
  /\ (forall td : jsstring,
         data_cell td = quote ++ replaceAll td 34%N (quote ++ quote) ++ quote /\
         undouble (replaceAll td 34%N (quote ++ quote)) = td)
  /\ (forall th : jsstring,
         header_cell th = quote ++ th ++ quote /\
         (header_cell th = data_cell th <-> existsb (N.eqb 34) th = false))
  /\ handleCopyCsvClick (Some example_table) =
     Some (jsq "'term','category'" ++ newline ++ jsq "'a''b','c'").
Proof.
  split; [reflexivity|]. split; [|split; [|reflexivity]].
  - intros td. split; [reflexivity | apply undouble_doubled].
  - intros th. split; [reflexivity|]. split.
    + unfold header_cell, data_cell. intros H.
      apply app_inv_head in H. apply app_inv_tail in H.
      symmetry in H. apply escaped_fixed in H.
      unfold no_quote in H. now apply negb_true_iff in H.
    + intros Hth. unfold header_cell, data_cell.
      rewrite (escaped_plain th); [reflexivity|].
      unfold no_quote. now rewrite Hth.
Qed.

Lemma csv_export_quotes_and_doubles_witness :
  existsb (N.eqb 34) (js "category") = false /\
  header_cell (js "category") = data_cell (js "category").
Proof.
  split; [reflexivity|].
  destruct csv_export_quotes_and_doubles as [_ [_ [Hheader _]]].
  exact (proj2 (proj2 (Hheader (js "category"))) eq_refl).
Defined.

(** C7 as the specification words it fails: in a table whose header
    text holds a double quote, that quote is written once, not twice. *)
Lemma header_quotes_are_not_doubled :
  ~ every_field_is_quoted_and_doubled quoted_header_table.
Proof.
  unfold every_field_is_quoted_and_doubled. vm_compute. intros H. discriminate H.
Qed.

(** The same record, when it reaches the table through the decode step,
    fills a row of seven cells, five of them empty; the exported row then
    has seven fields. *)
Remark csv_row_of_streamed_record :
  exists row,
    resultsTbody (fst (tryParseAndDisplay quoted_record_line page0)) = Some [row]
    /\ map cell_text (cells row) =
       map Some [quoted_term; js "c"; []; []; []; []; []]
    /\ handleCopyCsvClick
         (Some (mkTable [js "term"; js "category"]
                        [[quoted_term; js "c"; []; []; []; []; []]])) =
       Some (jsq "'term','category'" ++ newline ++ jsq "'a''b','c','','','','',''").
Proof.
  eexists. split; [reflexivity|]. split; reflexivity.
Qed.

End CsvExport.

(** ** The whole run *)

Section WholeRun.
Import DecodeFacts StreamFacts.

(** With a file that reads and a manual location, the stream is opened
    with the resolved context in which only the location is replaced. *)
Remark run_opens_stream_with_manual_location :
  forall (env : Surroundings) (csvContent : jsstring)
         (resolved : BusinessContext) (w : World),
    selectedFile env = Some (ReadGives csvContent) ->
    truthy_string (trim (manualLocationInput env)) = true ->
    (if truthy_string (trim (urlInput env))
     then getBusinessContext (generateContent env) (trim (urlInput env))
     else Normal (mkContext (JString []) (JArray []) (JArray []))) = Normal resolved ->
    handleAnalyzeClick env w =
    (setLoadingState true ;;;
     clearResultsAndErrors ;;;
     initializeResultDisplay ;;;
     reader_onload
       (generateContentStream env csvContent
          (mkContext (JString (trim (manualLocationInput env)))
                     (competitors resolved) (services resolved)))) w.
Proof.
  intros env csvContent resolved w Hfile Hmanual Hresolved.
  unfold handleAnalyzeClick. rewrite Hfile. cbv zeta.
  rewrite Hmanual, andb_false_r.
  unfold analysis_context. rewrite Hresolved, Hmanual.
  unfold bind, try_catch, lift, setLoadingState, clearResultsAndErrors,
    initializeResultDisplay, set_location.
  cbn [location ToBoolean]. rewrite Hmanual. reflexivity.
Qed.

(** When the stream opens and ends normally, the callback of the reader
    ends normally with the loading state off and the error container as
    it found it, whatever the lines of the stream are. *)
Remark reader_onload_shows_no_error :
  forall (cs : list (option jsstring)) (w : World),
    snd (reader_onload (Normal (mkStream cs None)) w) = Normal tt /\
    errorContainer (fst (reader_onload (Normal (mkStream cs None)) w)) = errorContainer w /\
    loading (fst (reader_onload (Normal (mkStream cs None)) w)) = false.
Proof.
  intros cs w. unfold reader_onload, try_finally, try_catch, bind, lift.
  destruct (decode_stream_frame cs w) as [Hn Hf].
  destruct (decode_stream (mkStream cs None) w) as [w1 c].
  simpl in Hn, Hf. subst c. simpl. auto.
Qed.

(** When the stream fails, the rows added so far stay, and the failure
    is shown once. *)
Remark reader_onload_reports_stream_failure :
  forall (cs : list (option jsstring)) (e : Exn) (w : World),
    exists w1,
      fst (for_await cs None [] w) = w1 /\
      resultsTbody (fst (reader_onload (Normal (mkStream cs (Some e))) w)) =
        resultsTbody w1 /\
      errorContainer (fst (reader_onload (Normal (mkStream cs (Some e))) w)) =
        Some (AnalysisFailed e) /\
      loading (fst (reader_onload (Normal (mkStream cs (Some e))) w)) = false.
Proof.
  intros cs e w. eexists. split; [reflexivity|].
  assert (H : forall buffer w0,
             for_await cs (Some e) buffer w0 =
             (fst (for_await cs None buffer w0), Throw e)).
  { induction cs as [|text cs IH]; intros buffer w0; [reflexivity|].
    simpl. unfold bind.
    destruct (drain_result (append_text buffer text) w0) as [w1 [b1 [Hd _]]].
    rewrite Hd. apply IH. }
  unfold reader_onload, decode_stream, try_finally, try_catch, bind, lift.
  simpl chunks. simpl failure. rewrite H. simpl. auto.
Qed.

End WholeRun.

(** * Further properties *)

(** ** The stream, line by line *)

Module LineFacts.
Import StringFacts DecodeFacts StreamFacts.

#[local] Arguments N.eqb : simpl never.

Lemma pieces_cut s :
  pieces s = match cut s with
             | Some (l, rest) => l :: pieces rest
             | None => [s]
             end.
Proof.
  induction s as [|c r IH]; [reflexivity|].
  simpl. destruct (N.eqb c LF); [reflexivity|].
  rewrite IH. now destruct (cut r) as [[l rest]|].
Qed.

Lemma pieces_nonempty s : pieces s <> [].
Proof. rewrite pieces_cut. now destruct (cut s) as [[l rest]|]. Qed.

Lemma flush_handle_line buffer w : flush buffer w = handle_line buffer w.
Proof. reflexivity. Qed.

(** The inner loop handles every piece but the last, in order, and
    leaves the last one in the buffer. *)
Lemma drain_pieces s :
  forall w,
    drain s w = (fold_left after_line (removelast (pieces s)) w,
                 Normal (last (pieces s) [])).
Proof.
  remember (length s) as n eqn:Hn. revert s Hn.
  induction n as [n IH] using lt_wf_ind. intros s Hn w.
  rewrite pieces_cut. destruct (cut s) as [[l rest]|] eqn:E.
  - rewrite (drain_line _ _ _ _ E).
    rewrite (IH (length rest)) with (s := rest);
      [| subst n; exact (cut_length _ _ _ E) | reflexivity].
    pose proof (pieces_nonempty rest) as Hne.
    destruct (pieces rest) as [|p ps] eqn:Ep; [contradiction|].
    reflexivity.
  - now rewrite (drain_no_newline _ _ E).
Qed.

Lemma decode_pieces s w :
  (buffer <- drain s ;; flush buffer) w = (fold_left after_line (pieces s) w, Normal tt).
Proof.
  unfold bind. rewrite drain_pieces, flush_handle_line.
  pose proof (handle_line_normal (last (pieces s) [])
                (fold_left after_line (removelast (pieces s)) w)) as Hn.
  destruct (handle_line _ _) as [w' c] eqn:Hh. simpl in Hn. subst c.
  f_equal.
  rewrite (app_removelast_last [] (pieces_nonempty s)) at 1.
  rewrite fold_left_app.
  change (w' = fst (handle_line (last (pieces s) [])
                      (fold_left after_line (removelast (pieces s)) w))).
  now rewrite Hh.
Qed.

Lemma for_await_failure cs e :
  forall buffer w,
    for_await cs (Some e) buffer w = (fst (for_await cs None buffer w), Throw e).
Proof.
  induction cs as [|text cs IH]; intros buffer w; [reflexivity|].
  simpl. unfold bind.
  destruct (drain_result (append_text buffer text) w) as [w1 [b1 [Hd _]]].
  rewrite Hd. apply IH.
Qed.

(** What one line does to the table and to the console. *)
Lemma after_line_effect w raw :
  after_line w raw =
  mkWorld (option_map (fun rows => add_rows rows (records_of [raw])) (resultsTbody w))
          (resultsShown w) (console w ++ warnings_of (has_table w) [raw])
          (errorContainer w) (loading w).
Proof.
  unfold after_line, handle_line, records_of, warnings_of, warning_of, has_table.
  simpl flat_map. rewrite !app_nil_r.
  destruct (truthy_string (trim raw)) eqn:Ht.
  - rewrite tryParse_effect. unfold accepted.
    destruct (brace_delimited (trim raw)) eqn:Hb.
    + destruct (decoded (trim raw)) as [props|] eqn:Ed.
      * assert (Hp : exists v, JSON_parse (trim raw) = Normal v).
        { unfold decoded in Ed. destruct (JSON_parse (trim raw)); [eauto|discriminate]. }
        destruct Hp as [v Hp]. rewrite Hp.
        destruct (has_text props) eqn:Hh;
          destruct w as [[rows|] shown cons err load];
          unfold log, set_tbody; cbn [fst resultsTbody resultsShown console
                                     errorContainer loading option_map add_rows
                                     andb negb];
          rewrite ?app_nil_r; reflexivity.
      * destruct (JSON_parse (trim raw));
          destruct w as [[rows|] shown cons err load]; simpl;
          rewrite ?app_nil_r; reflexivity.
    + destruct w as [[rows|] shown cons err load]; simpl;
        rewrite ?app_nil_r; reflexivity.
  - destruct (trim raw); [|discriminate].
    destruct w as [[rows|] shown cons err load]; simpl;
      rewrite ?app_nil_r; reflexivity.
Qed.

Lemma add_rows_app rows r1 r2 :
  add_rows rows (r1 ++ r2) = add_rows (add_rows rows r1) r2.
Proof.
  revert rows. induction r1 as [|p r1 IH]; intros rows; [reflexivity|].
  simpl. apply IH.
Qed.

Lemma records_of_app a b : records_of (a ++ b) = records_of a ++ records_of b.
Proof. unfold records_of. apply flat_map_app. Qed.

Lemma warnings_of_app table a b :
  warnings_of table (a ++ b) = warnings_of table a ++ warnings_of table b.
Proof. unfold warnings_of. apply flat_map_app. Qed.

Lemma fold_after_line raws :
  forall w,
    fold_left after_line raws w =
    mkWorld (option_map (fun rows => add_rows rows (records_of raws)) (resultsTbody w))
            (resultsShown w) (console w ++ warnings_of (has_table w) raws)
            (errorContainer w) (loading w).
Proof.
  induction raws as [|raw raws IH]; intros w.
  - simpl. rewrite app_nil_r. destruct w as [[rows|] shown cons err load]; reflexivity.
  - simpl fold_left. rewrite IH, after_line_effect.
    change (raw :: raws) with ([raw] ++ raws).
    rewrite records_of_app, warnings_of_app.
    unfold has_table.
    cbn [resultsTbody console resultsShown errorContainer loading].
    rewrite <- app_assoc.
    destruct (resultsTbody w) as [rows|]; cbn [option_map]; [|reflexivity].
    rewrite (add_rows_app rows (records_of [raw]) (records_of raws)). reflexivity.
Qed.

Lemma fields_before_failure_length props keys :
  length (fields_before_failure props keys) <= length keys /\
  (forallb (fun key => ToString_completes (field props key)) keys = false ->
   length (fields_before_failure props keys) < length keys).
Proof.
  induction keys as [|k ks [IH1 IH2]]; [split; [apply le_n | discriminate]|].
  cbn [fields_before_failure forallb length].
  destruct (ToString_completes (field props k)); cbn [andb length].
  - split; [lia|]. intros H. specialize (IH2 H). lia.
  - split; [lia|]. intros _. lia.
Qed.

Lemma cells_surfaced_row props rows : cells (surfaced_row props rows) = shown_cells props.
Proof. unfold surfaced_row, shown_cells. now destruct (has_text props). Qed.

(** A row that a record leaves in the table is complete, or unfinished
    with an empty last cell. *)
Lemma surfaced_row_shape props rows :
  complete_row (surfaced_row props rows) \/ partial_row (surfaced_row props rows).
Proof.
  unfold surfaced_row. destruct (has_text props) eqn:Hh.
  - left. split; [reflexivity|].
    eexists. split; [reflexivity|]. split.
    + pose proof (N.mod_upper_bound (N.of_nat (length rows + 1)) 50) as Hb. lia.
    + apply N.Div0.mod_mul.
  - right. unfold partial_row. cbn [cells animationDelay].
    destruct (fields_before_failure_length props columns) as [_ Hlt].
    specialize (Hlt Hh). change (length columns) with 7 in Hlt.
    rewrite length_app, last_last. cbn [length]. repeat split; lia.
Qed.

(** The rows that [add_rows] adds: one per record, after the rows that
    were there. *)
Lemma add_rows_spec records :
  forall rows,
    exists added,
      add_rows rows records = rows ++ added /\
      map cells added = map shown_cells records /\
      Forall (fun row => complete_row row \/ partial_row row) added.
Proof.
  induction records as [|props records IH]; intros rows.
  - exists []. now rewrite app_nil_r.
  - simpl. destruct (IH (rows ++ [surfaced_row props rows])) as [added [Ha [Hc Hf]]].
    exists (surfaced_row props rows :: added). split; [|split].
    + now rewrite Ha, <- app_assoc.
    + simpl. now rewrite Hc, cells_surfaced_row.
    + constructor; [apply surfaced_row_shape | exact Hf].
Qed.

Lemma shown_cells_complete records :
  forallb has_text records = true ->
  map shown_cells records = map (fun props => map (field props) columns) records.
Proof.
  induction records as [|props records IH]; [reflexivity|].
  cbn [forallb map]. intros H. apply andb_true_iff in H. destruct H as [Hp Hr].
  rewrite (IH Hr). unfold shown_cells at 1. now rewrite Hp.
Qed.

End LineFacts.

Section StreamByLines.
Import StringFacts DecodeFacts StreamFacts LineFacts.

(** A stream that ends normally is decoded piece by piece: the loop body
    runs on each text between two newlines of the streamed text, in
    order, and the flush runs it on the text after the last newline. *)
Lemma decode_stream_by_lines cs w :
  decode_stream (mkStream cs None) w =
  (fold_left after_line (pieces (streamed_text cs)) w, Normal tt).
Proof.
  rewrite <- decode_pieces. unfold decode_stream, bind. simpl chunks. simpl failure.
  rewrite for_await_streamed by reflexivity. reflexivity.
Qed.

Lemma decode_loop_by_lines cs w :
  for_await cs None [] w =
  (fold_left after_line (removelast (pieces (streamed_text cs))) w,
   Normal (last (pieces (streamed_text cs)) [])).
Proof.
  rewrite for_await_streamed by reflexivity. apply drain_pieces.
Qed.

(** X1.  The rows a stream adds are those of the records of its lines:
    the table keeps the rows it had and gains, in the order of the lines,
    one row per line that decodes to a record; duplicates are added
    again.  The cells of a row are the seven fields of its record when
    each of them has a text, and otherwise the fields before the first
    one without a text, followed by an empty cell. *)
Theorem stream_rows_are_the_records_of_its_lines :
  forall (cs : list (option jsstring)) (w : World) (rows : list Row),
    resultsTbody w = Some rows ->
    exists added,
      resultsTbody (fst (decode_stream (mkStream cs None) w)) = Some (rows ++ added) /\
      map cells added = map shown_cells (records_of (pieces (streamed_text cs))) /\
      (forallb has_text (records_of (pieces (streamed_text cs))) = true ->
       map cells added =
       map (fun props => map (field props) columns)
           (records_of (pieces (streamed_text cs)))).
Proof.
  intros cs w rows Hrows. rewrite decode_stream_by_lines, fold_after_line.
  cbn [fst resultsTbody]. rewrite Hrows. cbn [option_map].
  destruct (add_rows_spec (records_of (pieces (streamed_text cs))) rows)
    as [added [Ha [Hc _]]].
  exists added. split; [now rewrite Ha|]. split; [exact Hc|].
  intros Htext. now rewrite Hc, (shown_cells_complete _ Htext).
Qed.

Lemma stream_rows_are_the_records_of_its_lines_witness :
  resultsTbody used_page =
    Some [mkRow [JString (js "old")] None; mkRow [] None] /\
  exists added,
    resultsTbody (fst (decode_stream (mkStream unprintable_chunks None) used_page)) =
      Some ([mkRow [JString (js "old")] None; mkRow [] None] ++ added) /\
    map cells added =
    map shown_cells (records_of (pieces (streamed_text unprintable_chunks))).
Proof.
  split; [reflexivity|].
  destruct (stream_rows_are_the_records_of_its_lines unprintable_chunks used_page _
              eq_refl) as [added [Ha [Hc _]]].
  exists added. split; [exact Ha | exact Hc].
Defined.

(** The rows of that stream: a record split over two chunks, and one
    whose third field has no text. *)
Example rows_of_unprintable_chunks :
  map shown_cells (records_of (pieces (streamed_text unprintable_chunks))) =
  [[JString (js "x"); JString (js "Negative");
    JUndefined; JUndefined; JUndefined; JUndefined; JUndefined];
   [JString (js "x"); JString (js "y"); JString []]].
Proof. vm_compute. reflexivity. Qed.

(** X2.  The console gains exactly the warnings of the lines, in order:
    one for each line that passes the brace filter and that [JSON.parse]
    rejects, one for each line that decodes to a record with a field
    without text when the page has the table, and none for any other
    line; nothing else is logged. *)
Theorem stream_warnings_are_the_rejected_lines :
  forall (cs : list (option jsstring)) (w : World),
    console (fst (decode_stream (mkStream cs None) w)) =
    console w ++ warnings_of (has_table w) (pieces (streamed_text cs)).
Proof.
  intros cs w. rewrite decode_stream_by_lines, fold_after_line. reflexivity.
Qed.

(** X3.  Decoding composes at line boundaries: on a text [body ++ rest]
    whose [body] is empty or ends with a newline, the decode does what
    the decode of [body] followed by the decode of [rest] does. *)
Theorem decode_composes_at_newlines :
  forall (body rest : jsstring) (w : World),
    body = [] \/ endsWith body newline = true ->
    decode_stream (text_stream [body ++ rest]) w =
    (decode_stream (text_stream [body]) ;;; decode_stream (text_stream [rest])) w.
Proof.
  intros body rest w Hbody.
  destruct (drain_complete_lines body w Hbody) as [w1 Hd].
  rewrite decode_stream_concat. simpl concat. rewrite app_nil_r.
  unfold bind. rewrite drain_app. unfold bind. rewrite Hd. cbn [app].
  rewrite decode_stream_concat. simpl concat. rewrite app_nil_r.
  unfold bind. rewrite Hd.
  change (flush [] w1) with (w1, Normal tt). cbv iota beta.
  rewrite decode_stream_concat. simpl concat. rewrite app_nil_r. reflexivity.
Qed.

Lemma decode_composes_at_newlines_witness :
  endsWith two_lines newline = true /\
  decode_stream (text_stream [two_lines ++ record_x]) page0 =
  (decode_stream (text_stream [two_lines]) ;;; decode_stream (text_stream [record_x]))
    page0.
Proof.
  split; [reflexivity|].
  exact (decode_composes_at_newlines two_lines record_x page0 (or_intror eq_refl)).
Defined.

Lemma trim_blank s : forallb isTrimmed s = true -> trim s = [].
Proof.
  intros H. unfold trim, trimStart.
  assert (Hd : dropWhile isTrimmed s = []).
  { induction s as [|c r IH]; [reflexivity|].
    simpl in *. apply andb_true_iff in H. destruct H as [Hc Hr].
    rewrite Hc. now apply IH. }
  now rewrite Hd.
Qed.

Lemma pieces_forallb p s :
  forallb p s = true -> Forall (fun piece => forallb p piece = true) (pieces s).
Proof.
  induction s as [|c r IH]; intros H.
  - repeat constructor.
  - simpl in H. apply andb_true_iff in H. destruct H as [Hc Hr].
    specialize (IH Hr). simpl. destruct (N.eqb c LF).
    + constructor; [reflexivity | exact IH].
    + destruct (pieces r) as [|x xs]; [repeat constructor; simpl; now rewrite Hc|].
      inversion IH; subst. constructor; [|assumption].
      simpl. rewrite Hc. assumption.
Qed.

(** X4.  A stream that carries nothing but white space and line
    terminators changes nothing: no row, no warning. *)
Theorem blank_stream_changes_nothing :
  forall (cs : list (option jsstring)) (w : World),
    forallb isTrimmed (streamed_text cs) = true ->
    decode_stream (mkStream cs None) w = (w, Normal tt).
Proof.
  intros cs w H. rewrite decode_stream_by_lines. f_equal.
  pose proof (pieces_forallb _ _ H) as Hp.
  induction Hp as [|piece ps Hpiece _ IH]; [reflexivity|].
  simpl. unfold after_line at 2. unfold handle_line.
  rewrite (trim_blank _ Hpiece). exact IH.
Qed.

Lemma blank_stream_changes_nothing_witness :
  forallb isTrimmed (streamed_text blank_chunks) = true /\
  decode_stream (mkStream blank_chunks None) used_page = (used_page, Normal tt).
Proof.
  split; [reflexivity|].
  exact (blank_stream_changes_nothing blank_chunks used_page eq_refl).
Defined.

(** X5.  A chunk whose text is [undefined] adds the nine letters of
    that word to the buffer: the decode of any chunks is the decode of
    the single text in which each such chunk reads [undefined]. *)
Theorem chunk_without_text_reads_undefined :
  forall (cs : list (option jsstring)) (w : World),
    decode_stream (mkStream cs None) w =
    decode_stream (text_stream [streamed_text cs]) w.
Proof.
  intros cs w. rewrite decode_stream_by_lines.
  unfold text_stream. rewrite decode_stream_by_lines.
  unfold streamed_text at 2. simpl. now rewrite app_nil_r.
Qed.

(** X6.  Whatever the stream, and whether it ends normally or fails, the
    table only grows: the rows it held stay in place, and every row added
    is either complete, with seven cells and an animation delay that is a
    multiple of 20 ms and at most 980 ms, or unfinished, with at most
    seven cells, the last one empty, and no animation delay. *)
Theorem stream_only_appends_rows :
  forall (stream : Stream) (w : World) (rows : list Row),
    resultsTbody w = Some rows ->
    exists added,
      resultsTbody (fst (decode_stream stream w)) = Some (rows ++ added) /\
      Forall (fun row => complete_row row \/ partial_row row) added.
Proof.
  intros [cs [e|]] w rows Hrows.
  - unfold decode_stream, bind. simpl chunks. simpl failure.
    rewrite for_await_failure, decode_loop_by_lines. cbn [fst].
    rewrite fold_after_line. cbn [resultsTbody]. rewrite Hrows. cbn [option_map].
    destruct (add_rows_spec
                (records_of (removelast (pieces (streamed_text cs)))) rows)
      as [added [Ha [_ Hf]]].
    exists added. now rewrite Ha.
  - rewrite decode_stream_by_lines, fold_after_line.
    cbn [fst resultsTbody]. rewrite Hrows. cbn [option_map].
    destruct (add_rows_spec (records_of (pieces (streamed_text cs))) rows)
      as [added [Ha [_ Hf]]].
    exists added. now rewrite Ha.
Qed.

Lemma stream_only_appends_rows_witness :
  resultsTbody page0 = Some [] /\
  exists added,
    resultsTbody (fst (decode_stream
                         (mkStream unprintable_chunks (Some (ApiError (js "reset"))))
                         page0)) = Some ([] ++ added) /\
    Forall (fun row => complete_row row \/ partial_row row) added.
Proof.
  split; [reflexivity|].
  exact (stream_only_appends_rows
           (mkStream unprintable_chunks (Some (ApiError (js "reset")))) page0 []
           eq_refl).
Defined.

End StreamByLines.

(** ** The outcomes of a run *)

Section RunOutcomes.
Import StringFacts DecodeFacts StreamFacts LineFacts.

(** The callback of the file reader ends normally, with the loading
    state off. *)
Lemma reader_onload_ends opened w :
  snd (reader_onload opened w) = Normal tt /\
  loading (fst (reader_onload opened w)) = false.
Proof.
  destruct opened as [[cs [e|]]|e].
  - unfold reader_onload, decode_stream, try_finally, try_catch, bind, lift.
    simpl chunks. simpl failure. rewrite for_await_failure. simpl. auto.
  - unfold reader_onload, try_finally, try_catch, bind, lift.
    destruct (decode_stream_frame cs w) as [Hn _].
    destruct (decode_stream (mkStream cs None) w) as [w1 c].
    simpl in Hn. subst c. simpl. auto.
  - simpl. auto.
Qed.

(** X7.  The callback of the file reader never throws and always turns
    the loading state off; it shows an error exactly when opening the
    stream or reading it failed, and then the error is that failure;
    otherwise the error container stays as it was. *)
Theorem reader_onload_reports_exactly_the_failures :
  forall (opened : Completion Stream) (w : World),
    snd (reader_onload opened w) = Normal tt /\
    loading (fst (reader_onload opened w)) = false /\
    errorContainer (fst (reader_onload opened w)) =
    match opened with
    | Throw e => Some (AnalysisFailed e)
    | Normal stream =>
        match failure stream with
        | Some e => Some (AnalysisFailed e)
        | None => errorContainer w
        end
    end.
Proof.
  intros [[cs [e|]]|e] w.
  - unfold reader_onload, decode_stream, try_finally, try_catch, bind, lift.
    simpl chunks. simpl failure. rewrite for_await_failure. simpl. auto.
  - unfold reader_onload, try_finally, try_catch, bind, lift.
    destruct (decode_stream_frame cs w) as [Hn Hf].
    destruct (decode_stream (mkStream cs None) w) as [w1 c].
    simpl in Hn, Hf. subst c. simpl. auto.
  - simpl. auto.
Qed.

(** X8.  When the stream fails, the rows and the warnings of the lines
    that were complete stay, the unfinished last line is not decoded, and
    the failure is logged and shown once. *)
Theorem failed_stream_keeps_complete_lines_only :
  forall (cs : list (option jsstring)) (e : Exn) (w : World),
    fst (reader_onload (Normal (mkStream cs (Some e))) w) =
    let complete := removelast (pieces (streamed_text cs)) in
    mkWorld (option_map (fun rows => add_rows rows (records_of complete))
                        (resultsTbody w))
            (resultsShown w)
            ((console w ++ warnings_of (has_table w) complete) ++ [ConsoleError e])
            (Some (AnalysisFailed e)) false.
Proof.
  intros cs e w.
  unfold reader_onload, decode_stream, try_finally, try_catch, bind, lift.
  simpl chunks. simpl failure.
  rewrite for_await_failure, decode_loop_by_lines. cbn [fst].
  rewrite fold_after_line. reflexivity.
Qed.

(** The run once it has started, by the outcome of its context step. *)
Lemma handleAnalyzeClick_started env file w :
  selectedFile env = Some file ->
  started env = true ->
  handleAnalyzeClick env w =
  match run_context env with
  | Throw e => (aborted w [ConsoleError e] (AnalysisFailed e), Normal tt)
  | Normal context =>
      if ToBoolean (location context) then
        match file with
        | ReadFails => reader_onerror (cleared w)
        | ReadGives csvContent =>
            reader_onload (generateContentStream env csvContent context) (cleared w)
        end
      else (aborted w [] NoLocation, Normal tt)
  end.
Proof.
  intros Hfile Hstarted. unfold started in Hstarted. rewrite Hfile in Hstarted.
  unfold handleAnalyzeClick. rewrite Hfile. cbv zeta.
  apply orb_true_iff in Hstarted.
  assert (Hcheck : (negb (truthy_string (trim (urlInput env)))
                    && negb (truthy_string (trim (manualLocationInput env))))%bool
                   = false).
  { destruct Hstarted as [H|H]; rewrite H; simpl; [reflexivity | apply andb_false_r]. }
  rewrite Hcheck. fold (run_context env).
  unfold bind, try_catch, lift, setLoadingState, clearResultsAndErrors,
    initializeResultDisplay, displayError, console_error, ret, log.
  cbn [resultsTbody resultsShown console errorContainer loading].
  assert (Hmap : forall o : option (list Row),
             option_map (fun _ : list Row => @nil Row)
                        (option_map (fun _ : list Row => @nil Row) o)
             = option_map (fun _ : list Row => @nil Row) o)
    by (intros [l|]; reflexivity).
  destruct (run_context env) as [context|e].
  - destruct (ToBoolean (location context)); cbn [negb].
    + unfold cleared. rewrite Hmap. now destruct file.
    + unfold aborted. rewrite Hmap, app_nil_r. reflexivity.
  - unfold aborted. rewrite Hmap. reflexivity.
Qed.

(** X9.  A click without a file, or with a file but nothing except white
    space in both input fields, only shows a message: the table, the
    console and the loading state stay as they were. *)
Theorem invalid_inputs_only_show_a_message :
  forall (env : Surroundings) (w : World),
    selectedFile env = None \/
    (forallb isTrimmed (urlInput env) = true /\
     forallb isTrimmed (manualLocationInput env) = true) ->
    handleAnalyzeClick env w =
    (mkWorld (resultsTbody w) (resultsShown w) (console w)
             (Some (match selectedFile env with
                    | None => SelectFileFirst
                    | Some _ => ProvideUrlOrLocation
                    end))
             (loading w),
     Normal tt).
Proof.
  intros env w H. unfold handleAnalyzeClick.
  destruct (selectedFile env) as [file|]; [|reflexivity].
  destruct H as [H|[Hu Hm]]; [discriminate|].
  cbv zeta. rewrite (trim_blank _ Hu), (trim_blank _ Hm). reflexivity.
Qed.

Lemma invalid_inputs_only_show_a_message_witness :
  forallb isTrimmed (urlInput blank_env) = true /\
  forallb isTrimmed (manualLocationInput blank_env) = true /\
  handleAnalyzeClick blank_env used_page =
  (mkWorld (resultsTbody used_page) true [] (Some ProvideUrlOrLocation) false,
   Normal tt).
Proof.
  split; [reflexivity|]. split; [reflexivity|].
  exact (invalid_inputs_only_show_a_message blank_env used_page
           (or_intror (conj eq_refl eq_refl))).
Defined.

(** X10.  The handler never throws, whatever the API and the stream do,
    and a run that has started always ends with the loading state off;
    a click that does not start a run leaves the loading state alone. *)
Theorem run_never_throws_and_stops_loading :
  forall (env : Surroundings) (w : World),
    snd (handleAnalyzeClick env w) = Normal tt /\
    loading (fst (handleAnalyzeClick env w)) =
    if started env then false else loading w.
Proof.
  intros env w. destruct (started env) eqn:Hs.
  - unfold started in Hs. destruct (selectedFile env) as [file|] eqn:Hfile;
      [|discriminate].
    rewrite (handleAnalyzeClick_started env file w Hfile)
      by (unfold started; now rewrite Hfile).
    destruct (run_context env) as [context|e]; [|split; reflexivity].
    destruct (ToBoolean (location context)); [|split; reflexivity].
    destruct file as [|csvContent]; [split; reflexivity|].
    exact (reader_onload_ends (generateContentStream env csvContent context)
             (cleared w)).
  - unfold started in Hs. unfold handleAnalyzeClick.
    destruct (selectedFile env) as [file|]; [|split; reflexivity].
    apply orb_false_iff in Hs. destruct Hs as [Hu Hm].
    cbv zeta. rewrite Hu, Hm. split; reflexivity.
Qed.

(** X11.  A run whose context has a location, whose file reads and whose
    stream opens and ends normally shows the records of the lines of the
    stream and nothing else: the rows of earlier runs are gone, the
    results are shown, no error is shown, the loading state is off, and
    the console has gained the warnings of the lines. *)
Theorem successful_run_shows_the_records_of_the_stream :
  forall (env : Surroundings) (csvContent : jsstring) (context : BusinessContext)
         (cs : list (option jsstring)) (w : World),
    selectedFile env = Some (ReadGives csvContent) ->
    run_context env = Normal context ->
    ToBoolean (location context) = true ->
    generateContentStream env csvContent context = Normal (mkStream cs None) ->
    fst (handleAnalyzeClick env w) =
    mkWorld (option_map (fun _ => add_rows [] (records_of (pieces (streamed_text cs))))
                        (resultsTbody w))
            true
            (console w ++ warnings_of (has_table w) (pieces (streamed_text cs)))
            None false.
Proof.
  intros env csvContent context cs w Hfile Hctx Hloc Hstream.
  assert (Hs : started env = true).
  { unfold started. rewrite Hfile.
    destruct (truthy_string (trim (urlInput env))) eqn:Hu; [reflexivity|].
    destruct (truthy_string (trim (manualLocationInput env))) eqn:Hm; [reflexivity|].
    exfalso. unfold run_context, analysis_context in Hctx. rewrite Hu, Hm in Hctx.
    inversion Hctx; subst. discriminate Hloc. }
  rewrite (handleAnalyzeClick_started env _ w Hfile Hs), Hctx, Hloc, Hstream.
  unfold reader_onload, try_finally, try_catch, bind, lift.
  rewrite decode_stream_by_lines, fold_after_line.
  unfold cleared, has_table.
  cbn [fst resultsTbody resultsShown console errorContainer loading].
  destruct (resultsTbody w); reflexivity.
Qed.

Lemma successful_run_shows_the_records_of_the_stream_witness :
  selectedFile (manual_env (Normal (mkStream split_record None))) =
    Some (ReadGives csv_file) /\
  resultsTbody
    (fst (handleAnalyzeClick (manual_env (Normal (mkStream split_record None)))
            used_page)) =
  Some (add_rows [] (records_of (pieces (streamed_text split_record)))).
Proof.
  split; [reflexivity|].
  exact (f_equal resultsTbody
           (successful_run_shows_the_records_of_the_stream
              (manual_env (Normal (mkStream split_record None))) csv_file
              (mkContext (JString (js "Austin, TX")) (JArray []) (JArray []))
              split_record used_page eq_refl eq_refl eq_refl eq_refl)).
Defined.

(** X12.  When a URL is given and the context request fails, the run is
    aborted, also when a manual location was supplied: the failure is
    logged and shown, the table is left empty, the loading state is off;
    neither the file nor the stream is looked at. *)
Theorem failed_context_request_aborts_the_run :
  forall (env : Surroundings) (file : FileRead) (e : Exn) (w : World),
    selectedFile env = Some file ->
    truthy_string (trim (urlInput env)) = true ->
    getBusinessContext (generateContent env) (trim (urlInput env)) = Throw e ->
    handleAnalyzeClick env w =
    (aborted w [ConsoleError e] (AnalysisFailed e), Normal tt).
Proof.
  intros env file e w Hfile Hurl Hfail.
  assert (Hs : started env = true) by (unfold started; now rewrite Hfile, Hurl).
  rewrite (handleAnalyzeClick_started env file w Hfile Hs).
  unfold run_context, analysis_context. now rewrite Hurl, Hfail.
Qed.

Lemma failed_context_request_aborts_the_run_witness :
  truthy_string (trim (manualLocationInput failing_env)) = true /\
  handleAnalyzeClick failing_env used_page =
  (aborted used_page [ConsoleError (ApiError (js "offline"))]
           (AnalysisFailed (ApiError (js "offline"))),
   Normal tt).
Proof.
  split; [reflexivity|].
  exact (failed_context_request_aborts_the_run failing_env (ReadGives csv_file)
           (ApiError (js "offline")) used_page eq_refl eq_refl eq_refl).
Defined.

(** X13.  When the context of a started run has no location, the run is
    aborted with the message that asks for one, the table is left empty
    and the loading state is off; this only happens when the manual
    location field is blank. *)
Theorem run_without_location_is_aborted :
  forall (env : Surroundings) (context : BusinessContext) (w : World),
    started env = true ->
    run_context env = Normal context ->
    ToBoolean (location context) = false ->
    handleAnalyzeClick env w = (aborted w [] NoLocation, Normal tt) /\
    trim (manualLocationInput env) = [].
Proof.
  intros env context w Hs Hctx Hloc.
  assert (Hfile : exists file, selectedFile env = Some file).
  { unfold started in Hs. destruct (selectedFile env); [eauto | discriminate]. }
  destruct Hfile as [file Hfile]. split.
  - now rewrite (handleAnalyzeClick_started env file w Hfile Hs), Hctx, Hloc.
  - unfold run_context, analysis_context in Hctx.
    destruct (trim (manualLocationInput env)) as [|c r]; [reflexivity|].
    exfalso. cbn [truthy_string] in Hctx.
    destruct (if truthy_string (trim (urlInput env)) then _ else _);
      [|discriminate].
    inversion Hctx; subst. discriminate Hloc.
Qed.

Lemma run_without_location_is_aborted_witness :
  started nowhere_env = true /\
  handleAnalyzeClick nowhere_env used_page = (aborted used_page [] NoLocation, Normal tt).
Proof.
  split; [reflexivity|].
  exact (proj1 (run_without_location_is_aborted nowhere_env
                  (mkContext (JString []) (JArray [JString (js "Acme")]) (JArray []))
                  used_page eq_refl eq_refl eq_refl)).
Defined.

(** X14.  With a blank URL field the context request is not made: the
    run is the same whatever that request would have returned, and its
    context is the manual location with no competitors and no
    services. *)
Theorem blank_url_skips_the_context_request :
  forall (env : Surroundings) (ai : jsstring -> ApiResponse) (w : World),
    trim (urlInput env) = [] ->
    handleAnalyzeClick env w =
    handleAnalyzeClick
      (mkSurroundings (selectedFile env) (urlInput env) (manualLocationInput env)
                      ai (generateContentStream env)) w
    /\ run_context env =
       Normal (mkContext (JString (trim (manualLocationInput env)))
                         (JArray []) (JArray [])).
Proof.
  intros env ai w Hurl. split.
  - unfold handleAnalyzeClick, analysis_context.
    cbn [selectedFile urlInput manualLocationInput generateContent
         generateContentStream].
    rewrite Hurl. reflexivity.
  - unfold run_context, analysis_context. rewrite Hurl. cbn [truthy_string].
    destruct (trim (manualLocationInput env)); reflexivity.
Qed.

Lemma blank_url_skips_the_context_request_witness :
  trim (urlInput (manual_env (Normal (mkStream [] None)))) = [] /\
  run_context (manual_env (Normal (mkStream [] None))) =
  Normal (mkContext (JString (js "Austin, TX")) (JArray []) (JArray [])).
Proof.
  split; [reflexivity|].
  exact (proj2 (blank_url_skips_the_context_request
                  (manual_env (Normal (mkStream [] None)))
                  (fun _ => ApiReturns None) used_page eq_refl)).
Defined.

End RunOutcomes.

(** ** The response of the context request *)

Module FenceFacts.
Import JsonFacts DecodeFacts.

#[local] Arguments N.eqb : simpl never.

Lemma isPrefix_app pat rest : isPrefix pat (pat ++ rest) = true.
Proof.
  induction pat as [|p pat IH]; [reflexivity|].
  simpl. now rewrite N.eqb_refl, IH.
Qed.

Lemma find_at_start pat rest : find pat (pat ++ rest) = Some 0.
Proof.
  destruct pat as [|p pat]; [now destruct rest|].
  change (find (p :: pat) ((p :: pat) ++ rest))
    with (if isPrefix (p :: pat) ((p :: pat) ++ rest) then Some 0
          else option_map S (find (p :: pat) (pat ++ rest))).
  now rewrite isPrefix_app.
Qed.

(** A pattern cannot start inside a text that lacks its first unit. *)
Lemma find_skip (p : code_unit) (pat a b : jsstring) :
  existsb (N.eqb p) a = false ->
  find (p :: pat) (a ++ b) = option_map (Nat.add (length a)) (find (p :: pat) b).
Proof.
  induction a as [|c a IH]; intros H.
  - simpl app. now destruct (find (p :: pat) b).
  - simpl in H. apply orb_false_iff in H. destruct H as [Hc Ha].
    change (find (p :: pat) ((c :: a) ++ b))
      with (if (N.eqb p c && isPrefix pat (a ++ b))%bool then Some 0
            else option_map S (find (p :: pat) (a ++ b))).
    rewrite Hc. cbn [andb]. rewrite (IH Ha).
    now destruct (find (p :: pat) b).
Qed.

Lemma find_absent (p : code_unit) (pat a : jsstring) :
  existsb (N.eqb p) a = false -> find (p :: pat) a = None.
Proof.
  intros H. pose proof (find_skip p pat a [] H) as Hs.
  rewrite app_nil_r in Hs. exact Hs.
Qed.

(** The two fences, unit by unit. *)
Lemma fence_units : fence = (96%N : code_unit) :: ([96%N; 96%N] : jsstring).
Proof. reflexivity. Qed.

Lemma fence_json_units :
  fence_json = (96%N : code_unit) :: (js "``json" : jsstring).
Proof. reflexivity. Qed.

Lemma dropWhile_app_all p a b :
  forallb p a = true -> dropWhile p (a ++ b) = dropWhile p b.
Proof.
  induction a as [|c a IH]; intros H; [reflexivity|].
  simpl in *. apply andb_true_iff in H. destruct H as [Hc Ha].
  rewrite Hc. now apply IH.
Qed.

Lemma dropWhile_app_stop p a b :
  dropWhile p a <> [] -> dropWhile p (a ++ b) = dropWhile p a ++ b.
Proof.
  induction a as [|c a IH]; intros H; [contradiction|].
  simpl in *. destruct (p c); [now apply IH | reflexivity].
Qed.

Lemma dropWhile_all p a : forallb p a = true -> dropWhile p a = [].
Proof.
  intros H. rewrite <- (app_nil_r a), (dropWhile_app_all p a [] H). reflexivity.
Qed.

(** White space after a text is trimmed away with the rest. *)
Lemma trim_app_blank s ws : forallb isTrimmed ws = true -> trim (s ++ ws) = trim s.
Proof.
  intros H. unfold trim, trimStart, trimEnd.
  destruct (dropWhile isTrimmed s) as [|c r] eqn:E.
  - assert (Hs : forallb isTrimmed s = true) by now apply dropWhile_nil.
    rewrite (dropWhile_app_all _ _ _ Hs), (dropWhile_all _ _ H). reflexivity.
  - rewrite dropWhile_app_stop by (rewrite E; discriminate).
    rewrite E, rev_app_distr.
    rewrite dropWhile_app_all; [reflexivity|].
    rewrite forallb_forall in *. intros x Hx. apply H. now apply in_rev.
Qed.

(** White space before a text is trimmed away too. *)
Lemma trim_blank_app ws s : forallb isTrimmed ws = true -> trim (ws ++ s) = trim s.
Proof.
  intros H. unfold trim, trimStart. now rewrite (dropWhile_app_all _ _ _ H).
Qed.

Lemma no_backtick_exists s : no_backtick s = true -> existsb (N.eqb 96) s = false.
Proof. unfold no_backtick. now destruct (existsb (N.eqb 96) s). Qed.

Lemma existsb_app_false {A} (f : A -> bool) a b :
  existsb f a = false -> existsb f b = false -> existsb f (a ++ b) = false.
Proof. intros Ha Hb. now rewrite existsb_app, Ha, Hb. Qed.

(** The tagged fence is stripped at both ends. *)
Lemma strip_tagged_fence body :
  no_backtick body = true ->
  strip_fences (fence_json ++ newline ++ body ++ newline ++ fence) = trim body.
Proof.
  intros H. apply no_backtick_exists in H.
  unfold strip_fences, remove_fence_json. rewrite find_at_start.
  change (skipn (0 + length fence_json)
            (fence_json ++ newline ++ body ++ newline ++ fence))
    with (newline ++ body ++ newline ++ fence).
  cbn [firstn app newline]. rewrite N.eqb_refl.
  unfold removeFirst.
  change (body ++ LF :: fence) with (body ++ [LF] ++ fence).
  rewrite app_assoc.
  assert (Hb : existsb (N.eqb 96) (body ++ [LF]) = false)
    by (apply existsb_app_false; [exact H | reflexivity]).
  assert (Hfind : find fence ((body ++ [LF]) ++ fence) = Some (length (body ++ [LF]))).
  { rewrite fence_units at 1. rewrite (find_skip _ _ _ fence Hb).
    rewrite <- fence_units.
    change (find fence fence) with (Some 0).
    cbn [option_map]. now rewrite Nat.add_0_r. }
  rewrite Hfind.
  rewrite firstn_app, firstn_all, Nat.sub_diag. cbn [firstn].
  rewrite app_nil_r.
  rewrite skipn_app, skipn_all2 by lia.
  replace (length (body ++ [LF]) + length fence - length (body ++ [LF]))
    with 3 by (change (length fence) with 3; lia).
  change (skipn 3 fence) with (@nil code_unit). rewrite !app_nil_r.
  now apply trim_app_blank.
Qed.

(** A text without backticks is only trimmed. *)
Lemma strip_no_fence body : no_backtick body = true -> strip_fences body = trim body.
Proof.
  intros H. apply no_backtick_exists in H.
  unfold strip_fences, remove_fence_json, removeFirst.
  rewrite fence_json_units, (find_absent _ _ body H).
  rewrite fence_units at 1. now rewrite (find_absent _ _ body H).
Qed.

End FenceFacts.

Section ContextResponse.
Import JsonFacts DecodeFacts FenceFacts.

(** X15.  A response without backticks reads the same bare as wrapped
    in a code fence tagged json, each fence on a line of its own:
    [getBusinessContext] returns, or throws, the same for both. *)
Theorem tagged_fence_is_transparent :
  forall (body websiteUrl : jsstring),
    no_backtick body = true ->
    getBusinessContext
      (fun _ => ApiReturns (Some (fence_json ++ newline ++ body ++ newline ++ fence)))
      websiteUrl =
    getBusinessContext (fun _ => ApiReturns (Some body)) websiteUrl.
Proof.
  intros body websiteUrl H.
  rewrite (getBusinessContext_text _ websiteUrl _ eq_refl).
  rewrite (getBusinessContext_text _ websiteUrl body eq_refl).
  now rewrite (strip_tagged_fence body H), (strip_no_fence body H).
Qed.

Lemma tagged_fence_is_transparent_witness :
  no_backtick (jsq "{'location':'San Diego, CA'}") = true /\
  getBusinessContext
    (fun _ => ApiReturns
                (Some (fence_json ++ newline ++ jsq "{'location':'San Diego, CA'}"
                       ++ newline ++ fence))) site =
  getBusinessContext
    (fun _ => ApiReturns (Some (jsq "{'location':'San Diego, CA'}"))) site.
Proof.
  split; [reflexivity|].
  exact (tagged_fence_is_transparent (jsq "{'location':'San Diego, CA'}") site
           eq_refl).
Defined.

(** X16.  A context that [getBusinessContext] returns never holds an
    empty value except the empty string as location: its competitors and
    its services are truthy (the empty array when nothing truthy was
    parsed), and its location is truthy or the empty string. *)
Theorem resolved_context_has_no_empty_field :
  forall (ai : jsstring -> ApiResponse) (websiteUrl : jsstring)
         (context : BusinessContext),
    getBusinessContext ai websiteUrl = Normal context ->
    (ToBoolean (location context) = true \/ location context = JString []) /\
    ToBoolean (competitors context) = true /\
    ToBoolean (services context) = true.
Proof.
  intros ai websiteUrl context H.
  unfold getBusinessContext in H.
  destruct (ai websiteUrl) as [e|[text|]]; try discriminate.
  destruct (JSON_parse _) as [parsed|e]; [|discriminate].
  destruct (Get parsed (js "location")) as [loc|e]; [|discriminate].
  destruct (Get parsed (js "competitors")) as [comp|e]; [|discriminate].
  destruct (Get parsed (js "services")) as [serv|e]; [|discriminate].
  inversion H; subst. cbn [location competitors services]. unfold or_else.
  destruct (ToBoolean loc) eqn:Hl, (ToBoolean comp) eqn:Hc, (ToBoolean serv) eqn:Hs;
    auto.
Qed.

Lemma resolved_context_has_no_empty_field_witness :
  getBusinessContext (generateContent nowhere_env) site =
    Normal (mkContext (JString []) (JArray [JString (js "Acme")]) (JArray [])) /\
  ToBoolean (JArray [JString (js "Acme")]) = true /\
  ToBoolean (JArray []) = true.
Proof.
  split; [reflexivity|].
  exact (proj2 (resolved_context_has_no_empty_field
                  (generateContent nowhere_env) site
                  (mkContext (JString []) (JArray [JString (js "Acme")]) (JArray []))
                  eq_refl)).
Defined.

End ContextResponse.

(** ** How a JSON text ends *)

Module JsonEndFacts.
Import JsonFacts DecodeFacts.

#[local] Arguments N.eqb : simpl never.
#[local] Arguments N.leb : simpl never.
#[local] Arguments N.ltb : simpl never.
#[local] Arguments isPrefix : simpl never.
#[local] Arguments skipn : simpl never.
#[local] Arguments skip_ws : simpl never.
#[local] Arguments parse_string_body : simpl never.
#[local] Arguments parse_number : simpl never.

(** The unit read last, just before [rest], satisfies [P]. *)
Definition Ends (P : code_unit -> bool) (s rest : jsstring) : Prop :=
  exists pre c, s = pre ++ c :: rest /\ P c = true.

Lemma Ends_Suffix P a s rest : Ends P a rest -> Suffix a s -> Ends P s rest.
Proof.
  intros [pre [c [-> Hc]]] [q ->]. exists (q ++ pre), c.
  split; [now rewrite app_assoc | exact Hc].
Qed.

Lemma Ends_cons P c rest : P c = true -> Ends P (c :: rest) rest.
Proof. intros H. now exists [], c. Qed.

Lemma Ends_is_Suffix P s rest : Ends P s rest -> Suffix rest s.
Proof.
  intros [pre [c [-> _]]]. exists (pre ++ [c]). now rewrite <- app_assoc.
Qed.

Lemma Ends_then P a b c : Ends P a b -> c = b \/ Ends P b c -> Ends P a c.
Proof.
  intros Hab [->|Hbc]; [exact Hab|].
  exact (Ends_Suffix P b a c Hbc (Ends_is_Suffix P a b Hab)).
Qed.

Lemma Ends_weaken (P Q : code_unit -> bool) s rest :
  (forall c, P c = true -> Q c = true) -> Ends P s rest -> Ends Q s rest.
Proof. intros H [pre [c [-> Hc]]]. exists pre, c. auto. Qed.

Lemma parse_string_body_closes s str rest :
  parse_string_body s = Some (str, rest) -> Suffix (34%N :: rest) s.
Proof.
  remember (length s) as n eqn:Hn. revert s str rest Hn.
  induction n as [n IH] using lt_wf_ind. intros s str rest Hn H.
  destruct s as [|c r]; [discriminate|].
  unfold parse_string_body in H; fold parse_string_body in H.
  destruct (N.eqb_spec c 34) as [->|_].
  { inversion H; subst. apply Suffix_refl. }
  assert (Hrec : forall t str', length t < n ->
                   parse_string_body t = Some (str', rest) ->
                   Suffix t (c :: r) -> Suffix (34%N :: rest) (c :: r)).
  { intros t str' Ht E St.
    exact (Suffix_trans _ _ _ (IH (length t) Ht t str' rest eq_refl E) St). }
  subst n. destruct (N.eqb c 92).
  - destruct r as [|e r1]; [discriminate|].
    destruct (N.eqb e 117).
    + destruct r1 as [|h1 [|h2 [|h3 [|h4 r2]]]]; try discriminate.
      destruct (hexValue h1), (hexValue h2), (hexValue h3), (hexValue h4);
        try discriminate.
      destruct (parse_string_body r2) as [[str' rest']|] eqn:E; [|discriminate].
      inversion H; subst. apply (Hrec r2 str'); [simpl; lia | exact E|].
      exists [c; e; h1; h2; h3; h4]. reflexivity.
    + destruct (simpleEscape e); [|discriminate].
      destruct (parse_string_body r1) as [[str' rest']|] eqn:E; [|discriminate].
      inversion H; subst. apply (Hrec r1 str'); [simpl; lia | exact E|].
      exists [c; e]. reflexivity.
  - destruct (N.ltb c 32); [discriminate|].
    destruct (parse_string_body r) as [[str' rest']|] eqn:E; [|discriminate].
    inversion H; subst. apply (Hrec r str'); [simpl; lia | exact E|].
    apply Suffix_tail.
Qed.

Lemma span_digits_nil s rest : span_digits s = ([], rest) -> rest = s.
Proof.
  destruct s as [|c r]; simpl; intros H; [now inversion H|].
  destruct (isDigit c); [|now inversion H].
  destruct (span_digits r). discriminate.
Qed.

Lemma span_digits_Ends s ds rest :
  span_digits s = (ds, rest) -> ds <> [] -> Ends isDigit s rest.
Proof.
  revert ds rest. induction s as [|c r IH]; simpl; intros ds rest H Hne.
  - inversion H; subst. contradiction.
  - destruct (isDigit c) eqn:D; [|inversion H; subst; contradiction].
    destruct (span_digits r) as [[|d ds'] rest'] eqn:E; inversion H; subst.
    + apply span_digits_nil in E. subst. now apply Ends_cons.
    + apply (Ends_Suffix isDigit r); [|apply Suffix_tail].
      apply (IH (d :: ds')); [reflexivity | discriminate].
Qed.

Lemma parse_int_Ends s ds rest :
  parse_int s = Some (ds, rest) -> Ends isDigit s rest.
Proof.
  unfold parse_int. intros H. destruct s as [|c r]; [discriminate|].
  destruct (N.eqb_spec c 48) as [->|_].
  - inversion H; subst. now apply Ends_cons.
  - destruct (isDigit c) eqn:D; [|discriminate].
    assert (E : span_digits (c :: r) = (ds, rest)) by congruence.
    apply (span_digits_Ends _ _ _ E).
    simpl in E. rewrite D in E. destruct (span_digits r); inversion E; discriminate.
Qed.

Lemma parse_frac_Ends s ds rest :
  parse_frac s = Some (ds, rest) -> rest = s \/ Ends isDigit s rest.
Proof.
  unfold parse_frac. intros H. destruct s as [|c r]; [inversion H; now left|].
  destruct (N.eqb c 46); [|inversion H; now left].
  destruct (span_digits r) as [[|d ds'] rest'] eqn:E; [discriminate|].
  inversion H; subst. right.
  apply (Ends_Suffix isDigit r); [|apply Suffix_tail].
  apply (span_digits_Ends _ _ _ E). discriminate.
Qed.

Lemma parse_exp_Ends s e rest :
  parse_exp s = Some (e, rest) -> rest = s \/ Ends isDigit s rest.
Proof.
  unfold parse_exp. intros H. destruct s as [|c r]; [inversion H; now left|].
  destruct (N.eqb c 101 || N.eqb c 69)%bool; [|inversion H; now left].
  right.
  assert (Hdigits : forall negative r1,
             Suffix r1 r ->
             match span_digits r1 with
             | ([], _) => None
             | (ds, rest0) =>
                 let e0 := Z.of_N (digits_value ds) in
                 Some (if negative : bool then (- e0)%Z else e0, rest0)
             end = Some (e, rest) -> Ends isDigit (c :: r) rest).
  { intros negative r1 S1 Hd.
    destruct (span_digits r1) as [[|d ds'] rest'] eqn:E; [discriminate|].
    inversion Hd; subst.
    apply (Ends_Suffix isDigit r1).
    - apply (span_digits_Ends _ _ _ E). discriminate.
    - eapply Suffix_trans; [exact S1 | apply Suffix_tail]. }
  destruct r as [|sg r'].
  - apply (Hdigits false []); [apply Suffix_refl | exact H].
  - destruct (N.eqb sg 45);
      [apply (Hdigits true r'); [apply Suffix_tail | exact H]|].
    destruct (N.eqb sg 43).
    + apply (Hdigits false r'); [apply Suffix_tail | exact H].
    + apply (Hdigits false (sg :: r')); [apply Suffix_refl | exact H].
Qed.

Lemma parse_number_Ends s n rest :
  parse_number s = Some (n, rest) -> Ends isDigit s rest.
Proof.
  unfold parse_number. intros H.
  destruct (match s with [] => _ | _ => _ end) as [neg s1] eqn:Es.
  assert (S1 : Suffix s1 s).
  { destruct s as [|c r]; [inversion Es; apply Suffix_refl|].
    destruct (N.eqb c 45); inversion Es; [apply Suffix_tail | apply Suffix_refl]. }
  destruct (parse_int s1) as [[ints s2]|] eqn:Ei; [|discriminate].
  destruct (parse_frac s2) as [[fracs s3]|] eqn:Ef; [|discriminate].
  destruct (parse_exp s3) as [[e s4]|] eqn:Ee; [|discriminate].
  inversion H; subst.
  apply (Ends_Suffix isDigit s1); [|exact S1].
  apply (Ends_then isDigit s1 s3); [|exact (parse_exp_Ends _ _ _ Ee)].
  apply (Ends_then isDigit s1 s2); [|exact (parse_frac_Ends _ _ _ Ef)].
  exact (parse_int_Ends _ _ _ Ei).
Qed.

Lemma parse_elements_closes fuel :
  forall s vs rest,
    parse_elements fuel s = POk (vs, rest) -> Suffix (93%N :: rest) s.
Proof.
  induction fuel as [|f IH]; intros s vs rest H; [discriminate|].
  simpl in H.
  destruct (parse_value f s) as [[v r]| |] eqn:Ev; try discriminate.
  destruct (proj1 (parse_sound f) _ _ _ Ev) as [Sv _].
  destruct (skip_ws r) as [|c r1] eqn:Ews; [discriminate|].
  pose proof (skip_ws_Suffix r) as Sws. rewrite Ews in Sws.
  destruct (N.eqb_spec c 93) as [->|_].
  - inversion H; subst. suffix_chain.
  - destruct (N.eqb c 44); [|discriminate].
    destruct (parse_elements f r1) as [[vs' rest']| |] eqn:Ee; try discriminate.
    inversion H; subst. apply IH in Ee. suffix_chain.
Qed.

(** No unit that ends a JSON value is a backtick. *)
Definition notBacktick (c : code_unit) : bool := negb (N.eqb c 96).

Lemma isDigit_notBacktick c : isDigit c = true -> notBacktick c = true.
Proof.
  unfold isDigit, notBacktick. intros H. apply andb_true_iff in H.
  destruct H as [_ H]. apply N.leb_le in H.
  destruct (N.eqb_spec c 96); [lia | reflexivity].
Qed.

Lemma isPrefix_split pat s : isPrefix pat s = true -> s = pat ++ skipn (length pat) s.
Proof.
  revert s. induction pat as [|p pat IH]; intros s H; [reflexivity|].
  destruct s as [|c s]; [discriminate|].
  change (isPrefix (p :: pat) (c :: s)) with (N.eqb p c && isPrefix pat s)%bool in H.
  apply andb_true_iff in H. destruct H as [Hp Hs]. apply N.eqb_eq in Hp. subst c.
  change (skipn (length (p :: pat)) (p :: s)) with (skipn (length pat) s).
  simpl. f_equal. now apply IH.
Qed.

Lemma parse_value_Ends fuel s v rest :
  parse_value fuel s = POk (v, rest) -> Ends notBacktick s rest.
Proof.
  destruct fuel as [|f]; [discriminate|]. intros H.
  pose proof H as Hsound. apply (proj1 (parse_sound (S f))) in Hsound.
  destruct Hsound as [_ [_ Hobj]].
  simpl in H.
  destruct (skip_ws s) as [|c r] eqn:Ews; [discriminate|].
  pose proof (skip_ws_Suffix s) as Sws. rewrite Ews in Sws.
  destruct (N.eqb c 123).
  { assert (Hv : exists props, v = JObject props).
    { destruct (skip_ws r) as [|c1 r1]; [discriminate|].
      destruct (N.eqb c1 125); [inversion H; eauto|].
      destruct (parse_members f (c1 :: r1) []) as [[props rest']| |];
        inversion H; eauto. }
    destruct Hv as [props ->]. destruct (Hobj props eq_refl) as [_ [pre Hs]].
    now exists pre, 125%N. }
  destruct (N.eqb c 91).
  { destruct (skip_ws r) as [|c1 r1] eqn:Ews1; [discriminate|].
    pose proof (skip_ws_Suffix r) as Sws1. rewrite Ews1 in Sws1.
    assert (Sclose : Suffix (93%N :: rest) (c1 :: r1)).
    { destruct (N.eqb_spec c1 93) as [->|_].
      - inversion H; subst. apply Suffix_refl.
      - destruct (parse_elements f (c1 :: r1)) as [[vs rest']| |] eqn:Ee;
          try discriminate.
        inversion H; subst. exact (parse_elements_closes _ _ _ _ Ee). }
    assert (Sall : Suffix (93%N :: rest) s) by suffix_chain.
    destruct Sall as [pre Hs]. now exists pre, 93%N. }
  destruct (N.eqb c 34).
  { destruct (parse_string_body r) as [[str rest']|] eqn:Es; [|discriminate].
    inversion H; subst. pose proof (parse_string_body_closes _ _ _ Es) as Sc.
    assert (Sall : Suffix (34%N :: rest) s) by suffix_chain.
    destruct Sall as [pre Hs]. now exists pre, 34%N. }
  destruct (N.eqb c 45 || isDigit c)%bool.
  { destruct (parse_number (c :: r)) as [[n rest']|] eqn:En; [|discriminate].
    inversion H; subst.
    apply (Ends_Suffix notBacktick (c :: r)); [|exact Sws].
    apply (Ends_weaken isDigit); [exact isDigit_notBacktick|].
    exact (parse_number_Ends _ _ _ En). }
  assert (Hlit : forall lit last_unit pre,
             lit = pre ++ [last_unit] -> notBacktick last_unit = true ->
             isPrefix lit (c :: r) = true ->
             Ends notBacktick s (skipn (length lit) (c :: r))).
  { intros lit last_unit pre Hl Hn Hp.
    apply (Ends_Suffix notBacktick (c :: r)); [|exact Sws].
    apply isPrefix_split in Hp. exists pre, last_unit. split; [|exact Hn].
    rewrite Hp at 1. rewrite Hl, <- app_assoc. reflexivity. }
  destruct (isPrefix (js "true") (c :: r)) eqn:Ht.
  { inversion H; subst. exact (Hlit _ 101%N (js "tru") eq_refl eq_refl Ht). }
  destruct (isPrefix (js "false") (c :: r)) eqn:Hf.
  { inversion H; subst. exact (Hlit _ 101%N (js "fals") eq_refl eq_refl Hf). }
  destruct (isPrefix (js "null") (c :: r)) eqn:Hn; [|discriminate].
  inversion H; subst. exact (Hlit _ 108%N (js "nul") eq_refl eq_refl Hn).
Qed.

(** [JSON.parse] rejects every text that ends with a backtick. *)
Lemma JSON_parse_backtick_end text :
  JSON_parse (text ++ [96%N]) = Throw SyntaxError.
Proof.
  unfold JSON_parse.
  destruct (parse_value _ (text ++ [96%N])) as [[v rest]| |] eqn:E; try reflexivity.
  destruct (skip_ws rest) eqn:Ews; [|reflexivity]. exfalso.
  apply parse_value_Ends in E. destruct E as [pre [c [Hs Hc]]].
  destruct rest as [|x rest'] using rev_ind.
  - change (pre ++ [c]) with (pre ++ [c]) in Hs.
    apply app_inj_tail in Hs. destruct Hs as [_ <-]. discriminate Hc.
  - clear IHrest'. apply dropWhile_nil in Ews. rewrite forallb_app in Ews.
    apply andb_true_iff in Ews. destruct Ews as [_ Hx]. simpl in Hx.
    change (pre ++ c :: rest' ++ [x]) with (pre ++ (c :: rest') ++ [x]) in Hs.
    rewrite app_assoc in Hs. apply app_inj_tail in Hs. destruct Hs as [_ <-].
    discriminate Hx.
Qed.

End JsonEndFacts.

Section UntaggedFence.
Import JsonFacts DecodeFacts FenceFacts JsonEndFacts.

#[local] Arguments N.eqb : simpl never.

(** A text that ends with a unit that is not trimmed still ends with it
    after trimming. *)
Lemma trim_keeps_last s c :
  isTrimmed c = false -> exists t, trim (s ++ [c]) = t ++ [c].
Proof.
  intros Hc. unfold trim, trimStart, trimEnd.
  assert (Hstart : exists t, dropWhile isTrimmed (s ++ [c]) = t ++ [c]).
  { destruct (dropWhile isTrimmed s) as [|x r] eqn:E.
    - exists []. rewrite dropWhile_app_all by now apply dropWhile_nil.
      simpl. now rewrite Hc.
    - exists (x :: r). rewrite dropWhile_app_stop by (rewrite E; discriminate).
      now rewrite E. }
  destruct Hstart as [t ->]. exists t.
  rewrite rev_app_distr. simpl. rewrite Hc. simpl.
  now rewrite rev_involutive.
Qed.

(** Only the fence tagged json is stripped at both ends: of a fence
    without the tag the opening is removed and the closing stays. *)
Lemma strip_untagged_fence body :
  no_backtick body = true ->
  exists t, strip_fences (fence ++ newline ++ body ++ newline ++ fence) = t ++ [96%N].
Proof.
  intros H. apply no_backtick_exists in H.
  assert (Hb : existsb (N.eqb 96) (body ++ [LF]) = false)
    by (apply existsb_app_false; [exact H | reflexivity]).
  assert (Htext : fence ++ newline ++ body ++ newline ++ fence =
                  fence ++ newline ++ (body ++ [LF]) ++ fence)
    by (now rewrite <- (app_assoc body [LF] fence)).
  assert (Hnone : find fence_json (fence ++ newline ++ (body ++ [LF]) ++ fence) = None).
  { assert (Hrest : find fence_json ((body ++ [LF]) ++ fence) = None).
    { rewrite fence_json_units, (find_skip _ _ _ fence Hb).
      rewrite <- fence_json_units.
      change (find fence_json fence) with (@None nat). reflexivity. }
    change (find fence_json (fence ++ newline ++ (body ++ [LF]) ++ fence))
      with (option_map S (option_map S (option_map S (option_map S
              (find fence_json ((body ++ [LF]) ++ fence)))))).
    now rewrite Hrest. }
  unfold strip_fences, remove_fence_json. rewrite Htext, Hnone.
  unfold removeFirst. rewrite find_at_start.
  change (skipn (0 + length fence) (fence ++ newline ++ (body ++ [LF]) ++ fence))
    with (newline ++ (body ++ [LF]) ++ fence).
  cbn [firstn app newline].
  assert (Hend : (body ++ [LF]) ++ fence =
                 ((body ++ [LF]) ++ [96%N; 96%N]) ++ [96%N])
    by (now rewrite <- (app_assoc (body ++ [LF]) [96%N; 96%N] [96%N])).
  rewrite Hend.
  change (LF :: ((body ++ [LF]) ++ [96%N; 96%N]) ++ [96%N])
    with ([LF] ++ ((body ++ [LF]) ++ [96%N; 96%N]) ++ [96%N]).
  rewrite trim_blank_app by reflexivity. now apply trim_keeps_last.
Qed.

(** X17.  A response wrapped in a code fence without the json tag is
    always rejected: the second replacement removes the opening fence,
    the closing one stays, and [JSON.parse] throws a [SyntaxError]. *)
Theorem untagged_fence_is_rejected :
  forall (body websiteUrl : jsstring),
    no_backtick body = true ->
    getBusinessContext
      (fun _ => ApiReturns (Some (fence ++ newline ++ body ++ newline ++ fence)))
      websiteUrl = Throw SyntaxError.
Proof.
  intros body websiteUrl H.
  rewrite (getBusinessContext_text _ websiteUrl _ eq_refl).
  destruct (strip_untagged_fence body H) as [t ->].
  now rewrite JSON_parse_backtick_end.
Qed.

Lemma untagged_fence_is_rejected_witness :
  no_backtick (jsq "{'location':'San Diego, CA'}") = true /\
  getBusinessContext
    (fun _ => ApiReturns
                (Some (fence ++ newline ++ jsq "{'location':'San Diego, CA'}"
                       ++ newline ++ fence))) site = Throw SyntaxError.
Proof.
  split; [reflexivity|].
  exact (untagged_fence_is_rejected (jsq "{'location':'San Diego, CA'}") site eq_refl).
Defined.

End UntaggedFence.

(** ** Reading the exported CSV back *)

Module CsvFacts.
Import QuoteFacts.

#[local] Arguments N.eqb : simpl never.

(** The line of a row, as [handleCopyCsvClick] writes it. *)
Definition line_of (row : list jsstring) : jsstring := join comma (map data_cell row).

Lemma read_escaped td :
  forall cur row rows rest,
    read_csv InField cur row rows (replaceAll td 34%N (quote ++ quote) ++ rest) =
    read_csv InField (rev td ++ cur) row rows rest.
Proof.
  unfold replaceAll. change (quote ++ quote) with [34%N; 34%N].
  induction td as [|c r IH]; intros cur row rows rest; [reflexivity|].
  cbn [flat_map rev]. rewrite <- !app_assoc.
  destruct (N.eqb c 34) eqn:Hc.
  - apply N.eqb_eq in Hc. subst c.
    cbn [app read_csv]. rewrite !N.eqb_refl. apply IH.
  - cbn [app read_csv]. rewrite Hc. apply IH.
Qed.

Lemma read_cell (start : CsvState) td row rows rest :
  start = AfterComma \/ (start = RowStart /\ row = []) ->
  read_csv start [] row rows (data_cell td ++ rest) =
  read_csv QuoteSeen (rev td) row rows rest.
Proof.
  intros Hstart. unfold data_cell. rewrite <- !app_assoc.
  assert (Hopen : read_csv start [] row rows
                    (quote ++ replaceAll td 34%N (quote ++ quote) ++ quote ++ rest) =
                  read_csv InField [] row rows
                    (replaceAll td 34%N (quote ++ quote) ++ quote ++ rest)).
  { destruct Hstart as [->|[-> ->]]; reflexivity. }
  rewrite Hopen, read_escaped, app_nil_r. reflexivity.
Qed.

Lemma join_cons sep (p q : jsstring) ps :
  join sep (p :: q :: ps) = p ++ sep ++ join sep (q :: ps).
Proof. reflexivity. Qed.

Lemma read_cells cs :
  forall (start : CsvState) c row rows rest,
    start = AfterComma \/ (start = RowStart /\ row = []) ->
    read_csv start [] row rows (line_of (c :: cs) ++ rest) =
    read_csv QuoteSeen (rev (last (c :: cs) []))
             (rev (removelast (c :: cs)) ++ row) rows rest.
Proof.
  unfold line_of.
  induction cs as [|c' cs IH]; intros start c row rows rest Hstart.
  - simpl map. simpl join. now apply read_cell.
  - cbn [map]. rewrite join_cons, <- !app_assoc.
    rewrite (read_cell start c row rows _ Hstart).
    change (comma ++ join comma (data_cell c' :: map data_cell cs) ++ rest)
      with (44%N :: join comma (map data_cell (c' :: cs)) ++ rest).
    cbn [read_csv]. change (N.eqb 44 34) with false. change (N.eqb 44 44) with true.
    cbv iota. rewrite rev_involutive.
    etransitivity;
      [exact (IH AfterComma c' (c :: row) rows rest (or_introl eq_refl))|].
    change (last (c :: c' :: cs) []) with (last (c' :: cs) []).
    change (removelast (c :: c' :: cs)) with (c :: removelast (c' :: cs)).
    cbn [rev]. now rewrite <- app_assoc.
Qed.

Lemma rebuild_row (c : jsstring) cs :
  rev (rev (rev (last (c :: cs) [])) :: rev (removelast (c :: cs)) ++ []) = c :: cs.
Proof.
  rewrite rev_involutive, app_nil_r. cbn [rev]. rewrite rev_involutive.
  symmetry. apply app_removelast_last. discriminate.
Qed.

(** A line followed by a newline is read as one row. *)
Lemma read_line_newline row rows rest :
  read_csv RowStart [] [] rows (line_of row ++ LF :: rest) =
  read_csv RowStart [] [] (row :: rows) rest.
Proof.
  destruct row as [|c cs]; [reflexivity|].
  rewrite (read_cells cs RowStart c [] rows _ (or_intror (conj eq_refl eq_refl))).
  cbn [read_csv]. change (N.eqb LF 34) with false. change (N.eqb LF 44) with false.
  change (N.eqb LF 10) with true. cbv iota. now rewrite rebuild_row.
Qed.

(** The last line is read as the last row. *)
Lemma read_last_line row rows :
  read_csv RowStart [] [] rows (line_of row) = Some (rev (row :: rows)).
Proof.
  destruct row as [|c cs]; [reflexivity|].
  rewrite <- (app_nil_r (line_of (c :: cs))).
  rewrite (read_cells cs RowStart c [] rows _ (or_intror (conj eq_refl eq_refl))).
  cbn [read_csv]. now rewrite rebuild_row.
Qed.

Lemma read_lines ls :
  forall l rows,
    read_csv RowStart [] [] rows (join newline (map line_of (l :: ls))) =
    Some (rev rows ++ l :: ls).
Proof.
  induction ls as [|l' ls IH]; intros l rows.
  - simpl map. simpl join. rewrite read_last_line. reflexivity.
  - cbn [map]. rewrite join_cons.
    change (line_of l ++ newline ++ join newline (line_of l' :: map line_of ls))
      with (line_of l ++ LF :: join newline (map line_of (l' :: ls))).
    rewrite read_line_newline, IH. cbn [rev]. now rewrite <- app_assoc.
Qed.

Lemma header_line_plain ths :
  forallb no_quote ths = true -> map header_cell ths = map data_cell ths.
Proof.
  intros H. apply map_ext_in. intros th Hin.
  rewrite forallb_forall in H. unfold header_cell, data_cell.
  now rewrite (escaped_plain th (H th Hin)).
Qed.

End CsvFacts.

Section CsvRoundTrip.
Import QuoteFacts CsvFacts.

#[local] Arguments N.eqb : simpl never.

(** X18.  What the export writes reads back as the table: when no
    header text holds a double quote, the copied text parses, by the
    doubled-quote convention, to the header row followed by the body
    rows, whatever commas, quotes and newlines the cells hold. *)
Theorem exported_csv_reads_back :
  forall (t : ResultsTable) (csvContent : jsstring),
    forallb no_quote (thead t) = true ->
    handleCopyCsvClick (Some t) = Some csvContent ->
    parse_csv csvContent = Some (thead t :: tbody t).
Proof.
  intros t csvContent Hhead H. unfold handleCopyCsvClick in H.
  cbv zeta in H. destruct (truthy_string _); [|discriminate].
  inversion H as [Hcsv]. clear H Hcsv.
  rewrite (header_line_plain _ Hhead).
  change (join newline
            (join comma (map data_cell (thead t))
             :: map (fun row => join comma (map data_cell row)) (tbody t)))
    with (join newline (map line_of (thead t :: tbody t))).
  exact (read_lines (tbody t) (thead t) []).
Qed.

Lemma exported_csv_reads_back_witness :
  forallb no_quote (thead awkward_table) = true /\
  exists csvContent,
    handleCopyCsvClick (Some awkward_table) = Some csvContent /\
    parse_csv csvContent = Some (thead awkward_table :: tbody awkward_table).
Proof.
  split; [reflexivity|].
  eexists. split; [reflexivity|].
  exact (exported_csv_reads_back awkward_table _ eq_refl eq_refl).
Defined.

(** X19.  The export writes to the clipboard unless there is no table,
    or the table has neither a header cell nor a body row. *)
Theorem export_is_skipped_only_for_an_empty_table :
  forall table : option ResultsTable,
    handleCopyCsvClick table = None <->
    (table = None \/ exists t, table = Some t /\ thead t = [] /\ tbody t = []).
Proof.
  intros [t|]; [|split; [now left | reflexivity]].
  unfold handleCopyCsvClick. cbv zeta.
  destruct t as [ths rows]. cbn [thead tbody].
  destruct (truthy_string _) eqn:E.
  - split; [discriminate|].
    intros [H|[t [H [Hh Hb]]]]; [discriminate|].
    inversion H; subst t. cbn [thead tbody] in Hh, Hb. subst ths rows.
    discriminate E.
  - split; [|reflexivity]. intros _. right.
    exists (mkTable ths rows). split; [reflexivity|]. cbn [thead tbody].
    destruct ths as [|th ths].
    + destruct rows as [|row rows]; [now split|].
      exfalso. cbn [map] in E. rewrite join_cons in E. discriminate E.
    + exfalso. destruct rows as [|row rows].
      * destruct ths; discriminate E.
      * cbn [map] in E. rewrite join_cons in E.
        destruct ths; discriminate E.
Qed.

Lemma export_is_skipped_only_for_an_empty_table_witness :
  handleCopyCsvClick (Some (mkTable [] [])) = None /\
  handleCopyCsvClick (Some (mkTable [] [[]])) = Some newline.
Proof.
  split; [|reflexivity].
  apply (proj2 (export_is_skipped_only_for_an_empty_table (Some (mkTable [] [])))).
  right. exists (mkTable [] []). repeat split.
Defined.

(** X20.  A header cell is written like a body cell exactly when its
    text holds no double quote: the quotes of a header text are not
    doubled. *)
Theorem header_cells_are_not_escaped :
  forall th : jsstring,
    header_cell th = data_cell th <-> no_quote th = true.
Proof.
  intros th. split.
  - unfold header_cell, data_cell. intros H.
    apply app_inv_head in H. apply app_inv_tail in H.
    apply escaped_fixed. now symmetry.
  - intros H. unfold header_cell, data_cell. now rewrite (escaped_plain th H).
Qed.

Lemma header_cells_are_not_escaped_witness :
  no_quote (js "category") = true /\
  header_cell (js "category") = data_cell (js "category").
Proof.
  split; [reflexivity|].
  exact (proj2 (header_cells_are_not_escaped (js "category")) eq_refl).
Defined.

End CsvRoundTrip.

(** ** A file that cannot be read *)

Section UnreadableFile.

(** X21.  The file is read only after the context step: when the
    context has a location and reading the file fails, the run ends with
    the message that the file could not be read, an empty table and the
    loading state off, and no stream is opened. *)
Theorem unreadable_file_ends_the_run :
  forall (env : Surroundings) (context : BusinessContext) (w : World),
    selectedFile env = Some ReadFails ->
    run_context env = Normal context ->
    ToBoolean (location context) = true ->
    handleAnalyzeClick env w = (aborted w [] FileReadFailed, Normal tt).
Proof.
  intros env context w Hfile Hctx Hloc.
  assert (Hs : started env = true).
  { unfold started. rewrite Hfile.
    destruct (truthy_string (trim (urlInput env))) eqn:Hu; [reflexivity|].
    destruct (truthy_string (trim (manualLocationInput env))) eqn:Hm; [reflexivity|].
    exfalso. unfold run_context, analysis_context in Hctx. rewrite Hu, Hm in Hctx.
    inversion Hctx; subst. discriminate Hloc. }
  rewrite (handleAnalyzeClick_started env ReadFails w Hfile Hs), Hctx, Hloc.
  unfold reader_onerror, bind, displayError, setLoadingState, cleared, aborted.
  cbn [resultsTbody resultsShown console errorContainer loading].
  now rewrite app_nil_r.
Qed.

Lemma unreadable_file_ends_the_run_witness :
  selectedFile unreadable_env = Some ReadFails /\
  handleAnalyzeClick unreadable_env used_page =
  (aborted used_page [] FileReadFailed, Normal tt).
Proof.
  split; [reflexivity|].
  exact (unreadable_file_ends_the_run unreadable_env
           (mkContext (JString (js "Austin, TX")) (JArray []) (JArray []))
           used_page eq_refl eq_refl eq_refl).
Defined.

End UnreadableFile.
